(** * The response-decision pipeline of the customer-support bot (src/app.py)

    A shallow embedding of the functions of [app.py] that decide how a chat
    message is answered, and of the SQLite conversation log they write to:
    [tokenize], [load_faqs], [find_relevant_faq], [should_escalate],
    [save_message], [get_history], [chat] and [clear_history].

    Modelling conventions.
    - Text.  A Python [str] is a [string]; its characters are the code points
      U+0000..U+00FF, on which [str.lower], [str.isalnum] and [str.isspace]
      are the tables given below (they are CPython's on that range, and the
      range is closed under [str.lower]).
    - JSON.  A parsed document is a [json] value; an object is an association
      list in the order [dict.items()] yields it.
    - Database.  The table [conversations] is the list of its rows together
      with the AUTOINCREMENT counter.  [save_message] is a completed INSERT
      and [chat] the handler of a turn whose writes complete; the module
      [Faulty] gives the handlers over a store whose writes can raise, each
      write being committed on its own (lines 56-64).
    - Numbers.  A match score is the exact rational [|Q ∩ T| / max(1,|T|)];
      the float quotients of token counts compare as these rationals do.
      The decimal rounding [round(x, 3)] is a parameter of the matcher.
    - The outside world (the Groq client, the file system) enters as
      arguments: the backend is a function from a call to its result, the
      FAQ file is the result of reading and parsing it. *)

From Stdlib Require Import Ascii String QArith Qabs.
From stdpp Require Import base list strings gmap sorting.




(** ** Python text primitives *)

Module Text.

Definition code (c : ascii) : nat := nat_of_ascii c.

Definition between (lo hi n : nat) : bool := (lo <=? n)%nat && (n <=? hi)%nat.

(** [c.isspace()] *)
Definition isspace (c : ascii) : bool :=
  let n := code c in
  between 9 13 n || between 28 32 n || (n =? 133)%nat || (n =? 160)%nat.

(** [c.isalnum()] *)
Definition isalnum (c : ascii) : bool :=
  let n := code c in
  between 48 57 n || between 65 90 n || between 97 122 n
  || (n =? 170)%nat || between 178 179 n || (n =? 181)%nat
  || between 185 186 n || between 188 190 n
  || between 192 214 n || between 216 246 n || between 248 255 n.

(** [c.lower()] *)
Definition lower_char (c : ascii) : ascii :=
  let n := code c in
  if between 65 90 n || between 192 214 n || between 216 222 n
  then ascii_of_nat (n + 32) else c.

Fixpoint smap (f : ascii -> ascii) (s : string) : string :=
  match s with
  | EmptyString => EmptyString
  | String c r => String (f c) (smap f r)
  end.

(** [s.lower()] *)
Definition lower (s : string) : string := smap lower_char s.

(** [s.split()]: the maximal runs of characters that are not whitespace.
    [cur] is the run being read. *)
Fixpoint split_from (cur : string) (s : string) : list string :=
  match s with
  | EmptyString => if decide (cur = "") then [] else [cur]
  | String c r =>
      if isspace c
      then (if decide (cur = "") then split_from "" r
            else cur :: split_from "" r)
      else split_from (cur +:+ String c "") r
  end.

Definition split (s : string) : list string := split_from "" s.

(** [sep.join(l)] *)
Fixpoint join (sep : string) (l : list string) : string :=
  match l with
  | [] => ""
  | [x] => x
  | x :: r => x +:+ sep +:+ join sep r
  end.

(** [needle in hay] *)
Fixpoint contains (needle hay : string) : bool :=
  String.prefix needle hay
  || match hay with
     | EmptyString => false
     | String _ r => contains needle r
     end.

Fixpoint lstrip (s : string) : string :=
  match s with
  | EmptyString => EmptyString
  | String c r => if isspace c then lstrip r else s
  end.

Fixpoint rstrip (s : string) : string :=
  match s with
  | EmptyString => EmptyString
  | String c r =>
      match rstrip r with
      | EmptyString => if isspace c then EmptyString else String c EmptyString
      | r' => String c r'
      end
  end.

(** [s.strip()] *)
Definition strip (s : string) : string := rstrip (lstrip s).

(** [s[:n]] *)
Definition take (n : nat) (s : string) : string := String.substring 0 n s.

(** [s.replace(a, b)] for one-character [a] and [b] *)
Definition replace_char (a b : ascii) (s : string) : string :=
  smap (fun c => if decide (c = a) then b else c) s.

(** The characters of a string, as [for c in s] yields them. *)
Fixpoint chars (s : string) : list string :=
  match s with
  | EmptyString => []
  | String c r => String c "" :: chars r
  end.

End Text.

(** ** tokenize (app.py, lines 105-106) *)

(** [''.join(c if c.isalnum() else ' ' for c in s)] *)
Definition blank_non_alnum (s : string) : string :=
  Text.smap (fun c => if Text.isalnum c then c else " "%char) s.

(** [text] is [None] for Python's [None]; [text or ""] is then [""]. *)
Definition tokenize (text : option string) : list string :=
  filter (fun w => (1 < String.length w)%nat)
         (Text.split (blank_non_alnum (Text.lower (default "" text)))).




(** ** JSON documents and Python exceptions *)

#[warnings="-register-all"]
Inductive json : Type :=
| JNull
| JBool (b : bool)
| JNum (q : Q)
| JStr (s : string)
| JArr (items : list json)
| JObj (members : list (string * json)).

(** Python truthiness of a parsed value ([not v], [v or d], [if v]). *)
Definition truthy (v : json) : bool :=
  match v with
  | JNull => false
  | JBool b => b
  | JNum q => negb (Qeq_bool q 0)
  | JStr s => bool_decide (s <> "")
  | JArr items => bool_decide (items <> [])
  | JObj members => bool_decide (members <> [])
  end.

(** [d.get(k)] on an object's members *)
Fixpoint member (k : string) (members : list (string * json)) : option json :=
  match members with
  | [] => None
  | (k', v) :: rest => if decide (k' = k) then Some v else member k rest
  end.

(** The exceptions the modelled code can raise by itself. *)
Inductive exn : Type := AttributeError | TypeError.

Inductive result (A : Type) : Type :=
| Raise (e : exn)
| Return (a : A).
Arguments Raise {A} e.
Arguments Return {A} a.

(** Sequencing: an exception ends the computation. *)
#[global] Instance result_bind : MBind result :=
  fun A B (k : A -> result B) (m : result A) =>
    match m with
    | Raise e => Raise e
    | Return a => k a
    end.

(** Run [f] on each element in order; the first exception ends the run. *)
Fixpoint for_each {A B : Type} (f : A -> result B) (l : list A) : result (list B) :=
  match l with
  | [] => Return []
  | x :: r => y ← f x; ys ← for_each f r; Return (y :: ys)
  end.

(** ** Logging *)

Inductive level : Type := CRITICAL | ERROR | WARNING | INFO.

Record log_record : Type := Log { log_level : level; log_text : string }.

(** ** The conversation log (app.py, lines 39-75 and 245-254) *)

Record row : Type := Row {
  id : Z;
  row_session_id : string;
  row_role : string;
  row_content : string
}.

(** The table [conversations], in the order the rows were inserted, and the
    largest id AUTOINCREMENT has handed out. *)
Record database : Type := Database {
  conversations : list row;
  sqlite_sequence : Z
}.

(** A database file on which only [init_db] has run. *)
Definition init_db : database := Database [] 0.

Definition save_message (db : database) (session_id role content : string) : database :=
  let new_id := (sqlite_sequence db + 1)%Z in
  Database (conversations db ++ [Row new_id session_id role content]) new_id.

(** [ORDER BY id]: a stable insertion sort on the id column. *)
Fixpoint insert_by_id (r : row) (l : list row) : list row :=
  match l with
  | [] => [r]
  | r' :: rest => if (id r <=? id r')%Z then r :: l else r' :: insert_by_id r rest
  end.

Fixpoint order_by_id (l : list row) : list row :=
  match l with
  | [] => []
  | r :: rest => insert_by_id r (order_by_id rest)
  end.

(** [WHERE session_id=?] *)
Definition of_session (session_id : string) (r : row) : Prop := row_session_id r = session_id.

#[global] Instance of_session_dec (session_id : string) (r : row) :
  Decision (of_session session_id r).
Proof. unfold of_session. apply _. Defined.

(** [SELECT role, content FROM conversations WHERE session_id=? ORDER BY id] *)
Definition select_session (db : database) (session_id : string) : list row :=
  order_by_id (filter (of_session session_id) (conversations db)).

Record message : Type := Message { role : string; content : string }.

(** The dict appended for one fetched row (line 74). *)
Definition as_message (r : row) : message :=
  Message (if decide (row_role r = "assistant") then "assistant" else "user") (row_content r).

Definition get_history (db : database) (session_id : string) : list message :=
  map as_message (select_session db session_id).

(** [DELETE FROM conversations WHERE session_id=?] *)
Definition delete_session (db : database) (session_id : string) : database :=
  Database (filter (fun r => ~ of_session session_id r) (conversations db))
           (sqlite_sequence db).

(** ** load_faqs (app.py, lines 78-101) *)

(** What [open(FAQ_PATH)] followed by [json.load(f)] did: raised an exception
    (of message [e]), or produced a document. *)
Inductive file_read : Type :=
| ReadRaises (e : string)
| ReadReturns (data : json).

(** One element of [FAQ_LIST]: a dict with exactly these three keys. *)
Record faq : Type := Faq { question : json; answer : json; tags : json }.

(** [item.get(k, dflt)]; only a dict has the method. *)
Definition item_get (item : json) (k : string) (dflt : json) : result json :=
  match item with
  | JObj members => Return (default dflt (member k members))
  | _ => Raise AttributeError
  end.

Definition faq_of_item (item : json) : result faq :=
  q ← item_get item "question" (JStr "");
  a ← item_get item "answer" (JStr "");
  t ← item_get item "tags" (JArr []);
  Return (Faq q a (if truthy t then t else JArr [])).

Definition faq_of_pair (kv : string * json) : faq :=
  Faq (JStr (Text.replace_char "_" " " (fst kv))) (snd kv) (JArr []).

(** The value returned (or the exception that escapes) and the records
    written to the logger. *)
Definition load_faqs (f : file_read) : result (list faq) * list log_record :=
  match f with
  | ReadRaises e => (Return [], [Log ERROR ("Failed to load faqs.json: " +:+ e)])
  | ReadReturns (JArr items) => (for_each faq_of_item items, [])
  | ReadReturns (JObj members) => (Return (map faq_of_pair members), [])
  | ReadReturns _ => (Return [], [])
  end.

(** ** find_relevant_faq (app.py, lines 108-125) *)

(** [" ".join(tags)]: [str.join] takes any iterable of [str]. *)
Definition join_tags (t : json) : result string :=
  match t with
  | JArr items =>
      ss ← for_each (fun v => match v with JStr s => Return s | _ => Raise TypeError end) items;
      Return (Text.join " " ss)
  | JStr s => Return (Text.join " " (Text.chars s))
  | JObj members => Return (Text.join " " (map fst members))
  | _ => Raise TypeError
  end.

(** The strings of an entry, as the concatenation on line 115 needs them:
    [str + x] raises unless [x] is a [str]. *)
Record faq_text : Type := FaqText { question_text : string; answer_text : string; tags_text : string }.

Definition faq_strings (f : faq) : result faq_text :=
  match question f with
  | JStr q =>
      match answer f with
      | JStr a => t ← join_tags (tags f); Return (FaqText q a t)
      | _ => Raise TypeError
      end
  | _ => Raise TypeError
  end.

Definition combined (x : faq_text) : string :=
  question_text x +:+ " " +:+ answer_text x +:+ " " +:+ tags_text x.

Definition token_set (text : option string) : gset string := list_to_set (tokenize text).

(** [len(q_tokens & tokens) / max(1, len(tokens))] *)
Definition score_of (q_tokens tokens : gset string) : Q :=
  Z.of_nat (size (q_tokens ∩ tokens)) # Pos.of_nat (Nat.max 1 (size tokens)).

(** Decimal rounding to a multiple of 1/1000, the even one of two equally
    near.  Python's [round(x, 3)] works on the binary float: it returns this
    value except on a score whose fourth decimal is an exact tie and which is
    not a binary fraction (37/80, say), where the representation error
    decides.  The matcher therefore takes [round(x, 3)] as a parameter; this
    function is the instance the sample runs use. *)
Definition round_half_even (x : Q) : Q :=
  let n := (Qnum x * 1000)%Z in
  let d := Z.pos (Qden x) in
  let k := (n / d)%Z in
  let r := (n mod d)%Z in
  let k' := match (2 * r ?= d)%Z with
            | Lt => k
            | Gt => (k + 1)%Z
            | Eq => if Z.even k then k else (k + 1)%Z
            end in
  k' # 1000.

(** The loop variables [best_score] and [best_faq]; the entry is kept
    through its strings. *)
Record best : Type := Best { best_score : Q; best_faq : option faq_text }.

(** One iteration of [for faq in FAQ_LIST]. *)
Definition scan_step (q_tokens : gset string) (b : best) (f : faq) : result best :=
  x ← faq_strings f;
  let tokens := token_set (Some (combined x)) in
  if decide (tokens = ∅) then Return b
  else
    let score := score_of q_tokens tokens in
    match (score ?= best_score b)%Q with
    | Gt => Return (Best score (Some x))
    | _ => Return b
    end.

Fixpoint scan (q_tokens : gset string) (b : best) (faqs : list faq) : result best :=
  match faqs with
  | [] => Return b
  | f :: rest => b' ← scan_step q_tokens b f; scan q_tokens b' rest
  end.

Definition default_threshold : Q := 3 # 10.

(** The pair returned: [(None, 0.0)] or [(answer, rounded score)].
    [round3 x] is [round(x, 3)]. *)
Definition find_relevant_faq (round3 : Q -> Q) (FAQ_LIST : list faq) (query : option string) (threshold : Q)
  : result (option string * Q) :=
  let q_tokens := token_set query in
  if decide (q_tokens = ∅) then Return (None, 0%Q)
  else
    b ← scan q_tokens (Best 0%Q None) FAQ_LIST;
    match best_faq b with
    | Some x =>
        if Qle_bool threshold (best_score b)
        then Return (Some (answer_text x), round3 (best_score b))
        else Return (None, 0%Q)
    | None => Return (None, 0%Q)
    end.

(** ** should_escalate (app.py, lines 128-137) *)

Definition ESCALATION_KEYWORDS : list string :=
  ["hack"; "hacking"; "illegal"; "fraud"; "steal"; "breach";
   "attack"; "exploit"; "bomb"; "terror"; "kill"].

Definition should_escalate (query : option string) : bool :=
  match query with
  | None => false
  | Some q =>
      if decide (q = "") then false
      else existsb (fun k => Text.contains k (Text.lower q)) ESCALATION_KEYWORDS
  end.

(** ** The routes /chat and /clear_history (app.py, lines 145-254) *)

(** A value in a [jsonify]'d dict.  [VExn e] stands for the text [str(e)] of
    an exception raised inside the handler. *)
Inductive value : Type :=
| VStr (s : string)
| VNum (q : Q)
| VBool (b : bool)
| VNull
| VExn (e : exn).

(** [jsonify(body), status]; a dict is a finite map from its keys. *)
Record response : Type := Response { status : nat; body : gmap string value }.

(** The body of a POST: [data.get("session_id", "default")] and
    [data.get("query")] read these; [None] is an absent key. *)
Record request : Type := Request { req_session_id : option string; req_query : option string }.

(** What a handler leaves behind: the reply, the database and the records
    written to the logger. *)
Record handled : Type := Handled { reply : response; db_after : database; logged : list log_record }.

(** What the handler reads of a completion object: the text at
    [resp.choices[0].message.content], the text at [resp.choices[0].text]
    ([None] where the access or the [.strip()] on it raises), and [str(resp)]. *)
Record completion : Type := Completion {
  message_content : option string;
  choice_text : option string;
  repr : string
}.

Inductive call_result : Type :=
| CallRaises (e : string)
| CallReturns (resp : completion).

Definition handoff_message : string :=
  "I cannot help with that. Connecting you to a human agent...".

Definition system_prompt : string :=
  "You are a helpful and concise customer support assistant. " +:+
  "If the user's request is illegal, harmful, or requires human intervention, reply EXACTLY with the token: ESCALATE_TO_AGENT".

(** Lines 202-210, the defensive parsing. *)
Definition extract_reply (resp : completion) : string :=
  match message_content resp with
  | Some c => Text.strip c
  | None =>
      match choice_text resp with
      | Some t => Text.strip t
      | None => Text.take 1000 (repr resp)
      end
  end.

(** Lines 212-217: [(final_reply, action)]. *)
Definition classify_reply (bot_reply : string) : string * string :=
  if Text.contains "ESCALATE_TO_AGENT" bot_reply
  then (handoff_message, "escalated")
  else (bot_reply, "responded").

(** The four keys every successful branch puts in its dict. *)
Definition outcome_body (resp src action session_id : string) : gmap string value :=
  <["response" := VStr resp]> (<["source" := VStr src]>
    (<["action" := VStr action]> (<["session_id" := VStr session_id]> ∅))).

Definition optional_text (o : option string) : value :=
  match o with
  | Some s => VStr s
  | None => VNull
  end.

(** [logger.warning("Model %s failed: %s", model, e)] *)
Definition model_failed (model e : string) : log_record :=
  Log WARNING ("Model " +:+ model +:+ " failed: " +:+ e).

(** Lines 181-191: the system prompt, the session's history, the query. *)
Definition prompt (db : database) (session_id query : string) : list message :=
  [Message "system" system_prompt] ++ get_history db session_id ++ [Message "user" query].

Section Chat.

(** Module-level state: the loaded entries, the models to try (app.py
    configures the single model of [configured_models] below) and the Groq
    client.  [create n model messages] is the outcome of the call
    [client.chat.completions.create(model=model, messages=messages,
    temperature=0.0)] made as the [n]-th call of an invocation. *)
Variable round3 : Q -> Q.
Variable FAQ_LIST : list faq.
Variable MODEL_FALLBACKS : list string.
Variable create : nat -> string -> list message -> call_result.

(** [for model in MODEL_FALLBACKS] (lines 193-234), with what is left of the
    list, the number of calls made, [last_error] and the warnings so far. *)
Fixpoint try_models (db : database) (session_id query : string) (messages : list message)
    (models : list string) (n : nat) (last_error : option string) (warnings : list log_record)
  : handled :=
  match models with
  | [] =>
      Handled (Response 500 (<["error" := VStr "AI backend failed"]>
                              (<["detail" := optional_text last_error]> ∅)))
              db warnings
  | model :: rest =>
      match create n model messages with
      | CallReturns resp =>
          let bot_reply := extract_reply resp in
          let '(final_reply, action) := classify_reply bot_reply in
          let db1 := save_message db session_id "user" query in
          let db2 := save_message db1 session_id "assistant" final_reply in
          Handled (Response 200 (outcome_body final_reply ("llm:" +:+ model) action session_id))
                  db2 warnings
      | CallRaises e =>
          try_models db session_id query messages rest (S n) (Some e)
            (warnings ++ [model_failed model e])
      end
  end.

(** Step 3 of the handler, the fallback to the LLM (lines 180-234). *)
Definition generate (db : database) (session_id query : string) : handled :=
  let messages := prompt db session_id query in
  try_models db session_id query messages MODEL_FALLBACKS 0 None [].

Definition chat (db : database) (req : request) : handled :=
  let session_id := default "default" (req_session_id req) in
  match req_query req with
  | None => Handled (Response 400 (<["error" := VStr "No query provided"]> ∅)) db []
  | Some query =>
      if decide (query = "")
      then Handled (Response 400 (<["error" := VStr "No query provided"]> ∅)) db []
      else if should_escalate (Some query)
      then
        let message := handoff_message in
        let db1 := save_message db session_id "user" query in
        let db2 := save_message db1 session_id "assistant" message in
        Handled (Response 200 (outcome_body message "rule-based" "escalated" session_id)) db2 []
      else
        match find_relevant_faq round3 FAQ_LIST (Some query) default_threshold with
        | Raise e =>
            Handled (Response 500 (<["error" := VStr "Internal server error"]>
                                    (<["detail" := VExn e]> ∅)))
                    db [Log ERROR "Unhandled error in /chat"]
        | Return (Some faq_answer, score) =>
            if decide (faq_answer = "")
            then generate db session_id query
            else
              let db1 := save_message db session_id "user" query in
              let db2 := save_message db1 session_id "assistant" faq_answer in
              Handled (Response 200 (<["match_score" := VNum score]>
                                      (outcome_body faq_answer "faq" "responded" session_id)))
                      db2 []
        | Return (None, _) => generate db session_id query
        end
  end.

End Chat.

(** The list app.py assigns to [MODEL_FALLBACKS]. *)
Definition configured_models : list string := ["llama-3.1-8b-instant"].

(** [clear_history]; [session_id] is [data.get("session_id", "default")]. *)
Definition clear_history (db : database) (req_session : option string) : handled :=
  let session_id := default "default" req_session in
  Handled (Response 200 (<["cleared" := VBool true]> (<["session_id" := VStr session_id]> ∅)))
          (delete_session db session_id) [].

(** The route /history (lines 240-243): [jsonify(get_history(session_id))]
    with [session_id = request.args.get("session_id", "default")]. *)
Definition history (db : database) (req_session : option string) : list message :=
  get_history db (default "default" req_session).

(** ** Vocabulary of the properties *)

(** Every character of a string satisfies [p]. *)
Fixpoint sall (p : ascii -> bool) (s : string) : bool :=
  match s with
  | EmptyString => true
  | String c r => p c && sall p r
  end.

(** The characters a token is made of: alphanumeric and fixed by [lower]. *)
Definition token_char (c : ascii) : bool :=
  Text.isalnum c && Ascii.eqb (Text.lower_char c) c.

(** What [tokenize] leaves of a character before it splits. *)
Definition normal_char (c : ascii) : ascii :=
  let l := Text.lower_char c in if Text.isalnum l then l else " "%char.

Arguments Text.isspace : simpl never.
Arguments Text.isalnum : simpl never.
Arguments Text.lower_char : simpl never.
Arguments token_char : simpl never.
Arguments normal_char : simpl never.

Ltac all_chars c :=
  destruct c as [[] [] [] [] [] [] [] []]; vm_compute; reflexivity.

Definition not_space (c : ascii) : bool := negb (Text.isspace c).

(** A non-empty run of token characters. *)
Definition token_word (w : string) : Prop := w <> "" /\ sall token_char w = true.

Definition long (w : string) : Prop := (1 < String.length w)%nat.

Definition id_lt (a b : row) : Prop := (id a < id b)%Z.

(** The state of a table with an AUTOINCREMENT key: ids grow along the rows
    and none exceeds the counter. *)
Definition consistent (db : database) : Prop :=
  StronglySorted id_lt (conversations db)
  /\ Forall (fun r => (id r <= sqlite_sequence db)%Z) (conversations db).

(** [needle] occurs in [hay] when case is ignored. *)
Definition contains_ignoring_case (needle hay : string) : bool :=
  Text.contains (Text.lower needle) (Text.lower hay).

(** The terminal states of [chat] before the generative stage runs, with
    the values each one works on. *)
Inductive branch : Type :=
| Rejected
| Escalated (session_id query : string)
| Faulted (e : exn)
| FaqMatched (session_id query faq_answer : string) (score : Q)
| Generative (session_id query : string).

(** Which branch the tests of lines 152, 156 and 169 select. *)
Definition branch_of (round3 : Q -> Q) (FAQ_LIST : list faq) (req : request) : branch :=
  let session_id := default "default" (req_session_id req) in
  match req_query req with
  | None => Rejected
  | Some query =>
      if decide (query = "") then Rejected
      else if should_escalate (Some query) then Escalated session_id query
      else
        match find_relevant_faq round3 FAQ_LIST (Some query) default_threshold with
        | Raise e => Faulted e
        | Return (Some faq_answer, score) =>
            if decide (faq_answer = "") then Generative session_id query
            else FaqMatched session_id query faq_answer score
        | Return (None, _) => Generative session_id query
        end
  end.

Definition no_query : response := Response 400 (<["error" := VStr "No query provided"]> ∅).

Definition backend_failed (last_error : option string) : response :=
  Response 500 (<["error" := VStr "AI backend failed"]>
                 (<["detail" := optional_text last_error]> ∅)).

(** The database after the two [save_message] calls of a successful branch. *)
Definition record_turn (db : database) (session_id query answer : string) : database :=
  save_message (save_message db session_id "user" query) session_id "assistant" answer.

Definition four_fields : gset string := {[ "response"; "source"; "action"; "session_id" ]}.

Definition sample_faqs : list faq :=
  [Faq (JStr "reset password") (JStr "Go to settings") (JArr [JStr "account"])].

Definition two_models : list string := ["primary"; "secondary"].

(** A backend whose first model times out and whose other models answer [text]. *)
Definition flaky_backend (text : string) (n : nat) (model : string) (msgs : list message)
  : call_result :=
  if decide (model = "primary") then CallRaises "timeout"
  else CallReturns (Completion (Some text) None "").

(** A backend on which every call raises. *)
Definition dead_backend (n : nat) (model : string) (msgs : list message) : call_result :=
  CallRaises ("down: " +:+ model).

Definition password_request : request := Request (Some "s1") (Some "How do I reset my password?").

Definition greeting_request : request := Request None (Some "hello there").

(** The token set T of an entry and the score the query gets on it. *)
Definition entry_tokens (x : faq_text) : gset string := token_set (Some (combined x)).

Definition entry_score (query : option string) (x : faq_text) : Q :=
  score_of (token_set query) (entry_tokens x).

(** One iteration of the loop on an entry whose fields are strings. *)
Definition scan_text (q_tokens : gset string) (b : best) (x : faq_text) : best :=
  if decide (entry_tokens x = ∅) then b
  else match (score_of q_tokens (entry_tokens x) ?= best_score b)%Q with
       | Gt => Best (score_of q_tokens (entry_tokens x)) (Some x)
       | _ => b
       end.

(** What the loop knows after the entries [seen]: [best_score] bounds every
    score so far, and [best_faq] is the first entry that reached it, if any
    score was positive. *)
Definition scanned (q_tokens : gset string) (seen : list faq_text) (b : best) : Prop :=
  (forall i y, seen !! i = Some y -> entry_tokens y <> ∅ ->
               (score_of q_tokens (entry_tokens y) <= best_score b)%Q)
  /\ match best_faq b with
     | None => best_score b = 0%Q
     | Some x =>
         exists i, seen !! i = Some x /\ entry_tokens x <> ∅
           /\ best_score b = score_of q_tokens (entry_tokens x)
           /\ (0 < best_score b)%Q
           /\ forall j y, (j < i)%nat -> seen !! j = Some y -> entry_tokens y <> ∅ ->
                          (score_of q_tokens (entry_tokens y) < best_score b)%Q
     end.

(** The entry made from the members of one object of a list-shaped file. *)
Definition entry_of_object (members : list (string * json)) : faq :=
  Faq (default (JStr "") (member "question" members))
      (default (JStr "") (member "answer" members))
      (match member "tags" members with
       | Some t => if truthy t then t else JArr []
       | None => JArr []
       end).

(** What [" ".join] accepts: a string, a dict, or a list of strings. *)
Definition joinable (t : json) : Prop :=
  match t with
  | JStr _ | JObj _ => True
  | JArr items => Forall (fun v => exists s, v = JStr s) items
  | _ => False
  end.

(** An entry the concatenation of line 115 does not choke on. *)
Definition string_fields (f : faq) : Prop :=
  (exists q, question f = JStr q) /\ (exists a, answer f = JStr a) /\ joinable (tags f).

(** An object of a list-shaped file whose fields, where present, suit the
    matcher: string question and answer, tags that are falsy or joinable. *)
Definition object_suits (members : list (string * json)) : Prop :=
  (forall v, member "question" members = Some v -> exists s, v = JStr s)
  /\ (forall v, member "answer" members = Some v -> exists s, v = JStr s)
  /\ (forall v, member "tags" members = Some v -> truthy v = false \/ joinable v).

(** A list with an entry whose answer is a number. *)
Definition untyped_faqs : list faq :=
  [Faq (JStr "reset password") (JStr "Go to settings") (JArr []);
   Faq (JStr "refund period") (JNum 30) (JArr [])].

(** A string that does not begin with whitespace. *)
Definition starts_clean (s : string) : Prop :=
  match s with
  | EmptyString => True
  | String c _ => Text.isspace c = false
  end.


(** ** The handlers over a store whose writes can raise *)

Module Faulty.

(** What the [k]-th call of [save_message] of an invocation does, given its
    arguments: [None] when the INSERT is committed, [Some e] when the call
    raises an exception of text [e] (a locked database, a text that sqlite3
    cannot bind) and writes nothing. *)
Definition write_fault : Type := nat -> string -> string -> string -> option string.

(** [save_message] (lines 56-64): the exception text, or the table with the
    row committed. *)
Definition save_message (fault : write_fault) (k : nat) (db : database)
    (session_id role content : string) : string + database :=
  match fault k session_id role content with
  | Some e => inl e
  | None => inr (save_message db session_id role content)
  end.

(** The handler of lines 236-238: [logger.exception], then status 500 with
    the text of the exception as detail. *)
Definition unhandled (detail : value) (db : database) : handled :=
  Handled (Response 500 (<["error" := VStr "Internal server error"]>
                          (<["detail" := detail]> ∅)))
          db [Log ERROR "Unhandled error in /chat"].

Section Handlers.

Variable fault : write_fault.
Variable round3 : Q -> Q.
Variable FAQ_LIST : list faq.
Variable MODEL_FALLBACKS : list string.
Variable create : nat -> string -> list message -> call_result.

(** [for model in MODEL_FALLBACKS] (lines 193-234).  The [try] of lines
    195-231 encloses the call, the parsing and both writes: an exception of
    any of them is logged as a failure of the model and the next model is
    tried, with what was committed before it left in the table.  [n] counts
    the calls of the backend, [k] the calls of [save_message]. *)
Fixpoint try_models (db : database) (session_id query : string) (messages : list message)
    (models : list string) (n k : nat) (last_error : option string)
    (warnings : list log_record) : handled :=
  match models with
  | [] => Handled (backend_failed last_error) db warnings
  | model :: rest =>
      match create n model messages with
      | CallRaises e =>
          try_models db session_id query messages rest (S n) k (Some e)
            (warnings ++ [model_failed model e])
      | CallReturns resp =>
          let bot_reply := extract_reply resp in
          let '(final_reply, action) := classify_reply bot_reply in
          match save_message fault k db session_id "user" query with
          | inl e =>
              try_models db session_id query messages rest (S n) (S k) (Some e)
                (warnings ++ [model_failed model e])
          | inr db1 =>
              match save_message fault (S k) db1 session_id "assistant" final_reply with
              | inl e =>
                  try_models db1 session_id query messages rest (S n) (S (S k)) (Some e)
                    (warnings ++ [model_failed model e])
              | inr db2 =>
                  Handled (Response 200 (outcome_body final_reply ("llm:" +:+ model) action
                                           session_id))
                          db2 warnings
              end
          end
      end
  end.

Definition generate (db : database) (session_id query : string) : handled :=
  let messages := prompt db session_id query in
  try_models db session_id query messages MODEL_FALLBACKS 0 0 None [].

(** The two writes and the reply of steps 1 and 2 (lines 157-165 and
    170-178); an exception of a write reaches the handler of line 236. *)
Definition record_and_reply (db : database) (session_id query answer : string)
    (ok : response) : handled :=
  match save_message fault 0 db session_id "user" query with
  | inl e => unhandled (VStr e) db
  | inr db1 =>
      match save_message fault 1 db1 session_id "assistant" answer with
      | inl e => unhandled (VStr e) db1
      | inr db2 => Handled ok db2 []
      end
  end.

Definition chat (db : database) (req : request) : handled :=
  let session_id := default "default" (req_session_id req) in
  match req_query req with
  | None => Handled no_query db []
  | Some query =>
      if decide (query = "")
      then Handled no_query db []
      else if should_escalate (Some query)
      then
        let message := handoff_message in
        record_and_reply db session_id query message
          (Response 200 (outcome_body message "rule-based" "escalated" session_id))
      else
        match find_relevant_faq round3 FAQ_LIST (Some query) default_threshold with
        | Raise e => unhandled (VExn e) db
        | Return (Some faq_answer, score) =>
            if decide (faq_answer = "")
            then generate db session_id query
            else
              record_and_reply db session_id query faq_answer
                (Response 200 (<["match_score" := VNum score]>
                                (outcome_body faq_answer "faq" "responded" session_id)))
        | Return (None, _) => generate db session_id query
        end
  end.

End Handlers.

End Faulty.

(** A store on which every write completes. *)
Definition no_fault : Faulty.write_fault := fun _ _ _ _ => None.

(** A store on which the second write of an invocation raises. *)
Definition second_write_fails (e : string) : Faulty.write_fault :=
  fun k _ _ _ => if decide (k = 1%nat) then Some e else None.

(** A store that refuses every assistant row. *)
Definition assistant_write_fails (e : string) : Faulty.write_fault :=
  fun _ _ role _ => if decide (role = "assistant") then Some e else None.

(** A backend on which every call returns [text]. *)
Definition steady_backend (text : string) (n : nat) (model : string) (msgs : list message)
  : call_result :=
  CallReturns (Completion (Some text) None "").

(** The sources the loader takes entries from: a list of objects, or a
    mapping. *)
Definition accepted_shape (data : json) : Prop :=
  (exists objects, data = JArr (map JObj objects)) \/ (exists members, data = JObj members).

(** A source that is unreadable or malformed: reading or parsing it raises,
    or what it parses to has neither accepted shape. *)
Definition unusable (f : file_read) : Prop :=
  match f with
  | ReadRaises _ => True
  | ReadReturns data => ~ accepted_shape data
  end.

(** * Properties *)

Example tokenize_sample :
  tokenize (Some "How do I reset my password?") = ["how"; "do"; "reset"; "my"; "password"].
Proof. vm_compute. reflexivity. Qed.

(** ** Strings and characters *)

Section StringFacts.

Lemma app_empty_l (s : string) : "" +:+ s = s.
Proof. reflexivity. Qed.

Lemma app_cons (c : ascii) (s t : string) : String c s +:+ t = String c (s +:+ t).
Proof. reflexivity. Qed.

Lemma app_empty_r (s : string) : s +:+ "" = s.
Proof. induction s as [|c s IH]; [reflexivity | rewrite app_cons, IH; reflexivity]. Qed.

Lemma app_assoc_str (a b c : string) : (a +:+ b) +:+ c = a +:+ (b +:+ c).
Proof. induction a as [|x a IH]; [reflexivity | rewrite !app_cons, IH; reflexivity]. Qed.

Lemma app_eq_empty (a b : string) : a +:+ b = "" -> a = "" /\ b = "".
Proof. destruct a; [rewrite app_empty_l; auto | rewrite app_cons; discriminate]. Qed.

Lemma smap_app (f : ascii -> ascii) (a b : string) :
  Text.smap f (a +:+ b) = Text.smap f a +:+ Text.smap f b.
Proof.
  induction a as [|x a IH]; [reflexivity|].
  rewrite app_cons. simpl. rewrite app_cons, IH. reflexivity.
Qed.

End StringFacts.

Lemma sall_app (p : ascii -> bool) (a b : string) :
  sall p (a +:+ b) = sall p a && sall p b.
Proof.
  induction a as [|x a IH]; [reflexivity|].
  rewrite app_cons. simpl. rewrite IH, andb_assoc. reflexivity.
Qed.

Lemma sall_impl (p q : ascii -> bool) (s : string) :
  (forall c, p c = true -> q c = true) -> sall p s = true -> sall q s = true.
Proof.
  intros Hpq. induction s as [|c s IH]; simpl; [reflexivity|].
  intros [Hc Hs]%andb_prop. rewrite (Hpq c Hc). now apply IH.
Qed.

Lemma token_char_not_space (c : ascii) :
  implb (token_char c) (negb (Text.isspace c)) = true.
Proof. all_chars c. Qed.

Lemma normal_char_cases (c : ascii) :
  Text.isspace (normal_char c) || token_char (normal_char c) = true.
Proof. all_chars c. Qed.

Lemma token_char_normal (c : ascii) :
  implb (token_char c) (Ascii.eqb (normal_char c) c) = true.
Proof. all_chars c. Qed.

Lemma lower_char_idempotent (c : ascii) :
  Text.lower_char (Text.lower_char c) = Text.lower_char c.
Proof. all_chars c. Qed.

Lemma normalize_is_smap (s : string) :
  blank_non_alnum (Text.lower s) = Text.smap normal_char s.
Proof.
  induction s as [|c s IH]; [reflexivity|].
  change (blank_non_alnum (Text.lower (String c s)))
    with (String (normal_char c) (blank_non_alnum (Text.lower s))).
  rewrite IH. reflexivity.
Qed.

(** ** tokenize *)

Lemma tokenize_unfold (text : option string) :
  tokenize text = filter long (Text.split (Text.smap normal_char (default "" text))).
Proof. unfold tokenize. rewrite normalize_is_smap. reflexivity. Qed.

Lemma split_from_space (cur : string) (c : ascii) (r : string) :
  Text.isspace c = true ->
  Text.split_from cur (String c r)
  = if decide (cur = "") then Text.split_from "" r else cur :: Text.split_from "" r.
Proof. intros H. simpl. rewrite H. reflexivity. Qed.

Lemma split_from_char (cur : string) (c : ascii) (r : string) :
  Text.isspace c = false ->
  Text.split_from cur (String c r) = Text.split_from (cur +:+ String c "") r.
Proof. intros H. simpl. rewrite H. reflexivity. Qed.

Lemma split_from_word (w cur rest : string) :
  sall not_space w = true ->
  Text.split_from cur (w +:+ rest) = Text.split_from (cur +:+ w) rest.
Proof.
  revert cur. induction w as [|c w IH]; intros cur Hw.
  - rewrite app_empty_l, app_empty_r. reflexivity.
  - simpl in Hw. apply andb_prop in Hw as [Hc Hw].
    apply negb_true_iff in Hc.
    rewrite app_cons, (split_from_char _ _ _ Hc), (IH _ Hw), app_assoc_str.
    reflexivity.
Qed.

Lemma token_word_not_space (w : string) : sall token_char w = true -> sall not_space w = true.
Proof.
  apply sall_impl. intros c Hc. unfold not_space.
  pose proof (token_char_not_space c) as H. rewrite Hc in H. exact H.
Qed.

(** Splitting the space-joined words gives the words back. *)
Lemma split_join (ws : list string) :
  Forall token_word ws -> Text.split (Text.join " " ws) = ws.
Proof.
  unfold Text.split. induction 1 as [|w ws [Hne Hw] Hws IH]; [reflexivity|].
  apply token_word_not_space in Hw.
  destruct ws as [|w2 ws].
  - simpl. rewrite <- (app_empty_r w) at 1. rewrite (split_from_word _ _ _ Hw).
    rewrite app_empty_l. simpl. destruct (decide (w = "")); [contradiction | reflexivity].
  - change (Text.join " " (w :: w2 :: ws)) with (w +:+ String " " (Text.join " " (w2 :: ws))).
    rewrite (split_from_word _ _ _ Hw), app_empty_l.
    rewrite split_from_space by reflexivity.
    destruct (decide (w = "")); [contradiction|]. rewrite IH. reflexivity.
Qed.

(** What [split] returns on normalized text are token words. *)
Lemma split_from_token_words (s cur : string) :
  sall token_char cur = true ->
  Forall token_word (Text.split_from cur (Text.smap normal_char s)).
Proof.
  revert cur. induction s as [|c s IH]; intros cur Hcur.
  - simpl. destruct (decide (cur = "")); [constructor|].
    repeat constructor; assumption.
  - change (Text.smap normal_char (String c s))
      with (String (normal_char c) (Text.smap normal_char s)).
    destruct (Text.isspace (normal_char c)) eqn:Hsp.
    + rewrite (split_from_space _ _ _ Hsp).
      destruct (decide (cur = "")); [apply IH; reflexivity|].
      constructor; [split; assumption | apply IH; reflexivity].
    + rewrite (split_from_char _ _ _ Hsp). apply IH.
      rewrite sall_app, Hcur. cbn [sall andb].
      pose proof (normal_char_cases c) as H. rewrite Hsp in H. cbn [orb] in H.
      rewrite H. reflexivity.
Qed.

Lemma tokenize_token_words (text : option string) : Forall token_word (tokenize text).
Proof.
  rewrite tokenize_unfold. apply Forall_forall. intros w Hw.
  apply list_elem_of_filter in Hw as [_ Hw].
  pose proof (split_from_token_words (default "" text) "" eq_refl) as H.
  rewrite Forall_forall in H. apply H. exact Hw.
Qed.

Lemma smap_normal_token_word (w : string) :
  sall token_char w = true -> Text.smap normal_char w = w.
Proof.
  induction w as [|c w IH]; [reflexivity|]. cbn [sall Text.smap].
  intros [Hc Hw]%andb_prop. rewrite (IH Hw). f_equal.
  pose proof (token_char_normal c) as H. rewrite Hc in H. cbn [implb] in H.
  apply Ascii.eqb_eq. exact H.
Qed.

Lemma smap_normal_join (ws : list string) :
  Forall token_word ws -> Text.smap normal_char (Text.join " " ws) = Text.join " " ws.
Proof.
  induction 1 as [|w ws [_ Hw] Hws IH]; [reflexivity|].
  destruct ws as [|w2 ws].
  - simpl. apply smap_normal_token_word. exact Hw.
  - change (Text.join " " (w :: w2 :: ws)) with (w +:+ String " " (Text.join " " (w2 :: ws))).
    rewrite smap_app.
    change (Text.smap normal_char (String " " (Text.join " " (w2 :: ws))))
      with (String " " (Text.smap normal_char (Text.join " " (w2 :: ws)))).
    rewrite IH, (smap_normal_token_word _ Hw). reflexivity.
Qed.

Lemma filter_all {A : Type} (P : A -> Prop) `{forall x, Decision (P x)} (l : list A) :
  Forall P l -> filter P l = l.
Proof.
  induction 1 as [|x l Hx Hl IH]; [reflexivity|].
  rewrite filter_cons_True by assumption. rewrite IH. reflexivity.
Qed.

(** C8.  [tokenize] is idempotent on its output: tokenizing the tokens joined
    by spaces gives the same sequence of tokens, hence the same token set;
    every token is longer than one character; [None] and the empty string
    yield the empty sequence. *)
Theorem tokenize_idempotent (text : option string) :
  tokenize (Some (Text.join " " (tokenize text))) = tokenize text
  /\ token_set (Some (Text.join " " (tokenize text))) = token_set text
  /\ Forall (fun w => (1 < String.length w)%nat) (tokenize text)
  /\ tokenize None = [] /\ tokenize (Some "") = [].
Proof.
  assert (Hidem : tokenize (Some (Text.join " " (tokenize text))) = tokenize text).
  { pose proof (tokenize_token_words text) as Hws.
    rewrite (tokenize_unfold (Some _)). simpl default.
    rewrite (smap_normal_join _ Hws), (split_join _ Hws).
    apply filter_all. rewrite tokenize_unfold. apply Forall_forall.
    intros w Hw. apply list_elem_of_filter in Hw as [Hw _]. exact Hw. }
  split; [exact Hidem|]. split; [unfold token_set; rewrite Hidem; reflexivity|].
  split; [|split; reflexivity].
  rewrite tokenize_unfold. apply Forall_forall.
  intros w Hw. apply list_elem_of_filter in Hw as [Hw _]. exact Hw.
Qed.

(** ** The conversation log *)

Lemma consistent_init_db : consistent init_db.
Proof. split; constructor. Qed.

Lemma consistent_save_message (db : database) (s r c : string) :
  consistent db -> consistent (save_message db s r c).
Proof.
  intros [Hs Hb]. split; cbn [save_message conversations sqlite_sequence].
  - apply StronglySorted_app_2; [| exact Hs | repeat constructor].
    intros x y Hx Hy. apply list_elem_of_singleton in Hy as ->.
    rewrite Forall_forall in Hb. specialize (Hb x Hx). unfold id_lt. cbn [id]. lia.
  - apply Forall_app. split.
    + eapply Forall_impl; [exact Hb|]. cbn beta. intros x Hx. lia.
    + repeat constructor. cbn [id]. lia.
Qed.

Lemma StronglySorted_filter {A : Type} (R : relation A) (P : A -> Prop)
    `{forall x, Decision (P x)} (l : list A) :
  StronglySorted R l -> StronglySorted R (filter P l).
Proof.
  induction 1 as [|x l Hl IH Hx]; [constructor|].
  rewrite filter_cons. destruct (decide (P x)); [|exact IH].
  constructor; [exact IH|].
  apply Forall_forall. intros y Hy. apply list_elem_of_filter in Hy as [_ Hy].
  rewrite Forall_forall in Hx. apply Hx, Hy.
Qed.

Lemma consistent_delete_session (db : database) (s : string) :
  consistent db -> consistent (delete_session db s).
Proof.
  intros [Hs Hb]. split; cbn [delete_session conversations sqlite_sequence].
  - apply StronglySorted_filter, Hs.
  - apply Forall_forall. intros x Hx. apply list_elem_of_filter in Hx as [_ Hx].
    rewrite Forall_forall in Hb. apply Hb, Hx.
Qed.

Lemma insert_by_id_perm (r : row) (l : list row) : insert_by_id r l ≡ₚ r :: l.
Proof.
  induction l as [|x l IH]; [reflexivity|]. cbn [insert_by_id].
  destruct (id r <=? id x)%Z; [reflexivity|].
  rewrite IH. apply perm_swap.
Qed.

Lemma order_by_id_perm (l : list row) : order_by_id l ≡ₚ l.
Proof.
  induction l as [|x l IH]; [reflexivity|]. cbn [order_by_id].
  rewrite insert_by_id_perm, IH. reflexivity.
Qed.

(** Rows already in id order come back as they are. *)
Lemma order_by_id_sorted (l : list row) : StronglySorted id_lt l -> order_by_id l = l.
Proof.
  induction 1 as [|x l Hl IH Hx]; [reflexivity|]. cbn [order_by_id]. rewrite IH.
  destruct l as [|y l]; [reflexivity|]. cbn [insert_by_id].
  apply Forall_cons in Hx as [Hxy _]. unfold id_lt in Hxy.
  destruct (Z.leb_spec (id x) (id y)); [reflexivity | lia].
Qed.

Lemma select_session_consistent (db : database) (s : string) :
  consistent db -> select_session db s = filter (of_session s) (conversations db).
Proof.
  intros [Hs _]. unfold select_session. apply order_by_id_sorted.
  apply (StronglySorted_filter id_lt (of_session s)), Hs.
Qed.

Lemma get_history_consistent (db : database) (s : string) :
  consistent db -> get_history db s = map as_message (filter (of_session s) (conversations db)).
Proof. intros H. unfold get_history. rewrite (select_session_consistent _ _ H). reflexivity. Qed.

Lemma get_history_save_message (db : database) (s s' r c : string) :
  consistent db ->
  get_history (save_message db s' r c) s
  = get_history db s ++ (if decide (s' = s) then [as_message (Row (sqlite_sequence db + 1) s' r c)] else []).
Proof.
  intros H.
  rewrite (get_history_consistent _ _ (consistent_save_message _ s' r c H)).
  rewrite (get_history_consistent _ _ H).
  cbn [save_message conversations]. rewrite filter_app, map_app. f_equal.
  rewrite filter_cons, filter_nil. unfold of_session at 1. cbn [row_session_id].
  destruct (decide (s' = s)); reflexivity.
Qed.


Lemma get_history_delete_session (db : database) (s : string) :
  get_history (delete_session db s) s = [].
Proof.
  unfold get_history, select_session. cbn [delete_session conversations].
  replace (filter _ (filter _ (conversations db))) with (@nil row); [reflexivity|].
  symmetry. induction (conversations db) as [|x l IH]; [reflexivity|].
  rewrite (filter_cons (fun r => ~ of_session s r)).
  destruct (decide (~ of_session s x)) as [Hne|Heq]; [|exact IH].
  rewrite filter_cons_False by exact Hne. exact IH.
Qed.



Lemma get_history_length (db : database) (s : string) :
  length (get_history db s) = length (filter (of_session s) (conversations db)).
Proof.
  unfold get_history, select_session. rewrite length_map.
  apply Permutation_length, order_by_id_perm.
Qed.

(** C10.  A fetched row whose stored role is not exactly "assistant" is
    returned, at the same position and with its content, as a "user"
    message; the fetched rows are the stored rows of the session, none
    dropped. *)
Theorem unexpected_role_read_as_user (db : database) (s : string) (i : nat) (r : row) :
  select_session db s !! i = Some r ->
  row_role r <> "assistant" ->
  get_history db s !! i = Some (Message "user" (row_content r))
  /\ select_session db s ≡ₚ filter (of_session s) (conversations db)
  /\ length (get_history db s) = length (filter (of_session s) (conversations db)).
Proof.
  intros Hi Hrole. split; [|split].
  - unfold get_history. rewrite list_lookup_fmap, Hi. cbn [fmap option_fmap option_map].
    unfold as_message. destruct (decide (row_role r = "assistant")); [contradiction | reflexivity].
  - apply order_by_id_perm.
  - apply get_history_length.
Qed.

Lemma unexpected_role_read_as_user_witness :
  get_history (save_message init_db "s1" "system" "be brief") "s1" !! 0%nat
  = Some (Message "user" "be brief").
Proof.
  apply (unexpected_role_read_as_user
           (save_message init_db "s1" "system" "be brief") "s1" 0
           (Row 1 "s1" "system" "be brief")).
  - reflexivity.
  - discriminate.
Defined.


(** ** should_escalate *)

Lemma keywords_lower_case :
  Forall (fun k => Text.lower k = k /\ k <> "") ESCALATION_KEYWORDS.
Proof. repeat constructor; discriminate. Qed.

Lemma contains_in_empty (k : string) : k <> "" -> Text.contains k "" = false.
Proof. destruct k; [contradiction | reflexivity]. Qed.

Lemma should_escalate_keyword (q k : string) :
  k ∈ ESCALATION_KEYWORDS -> contains_ignoring_case k q = true ->
  q <> "" /\ should_escalate (Some q) = true.
Proof.
  intros Hk Hc.
  pose proof keywords_lower_case as Hl. rewrite Forall_forall in Hl.
  destruct (Hl k Hk) as [Hlow Hne].
  unfold contains_ignoring_case in Hc. rewrite Hlow in Hc.
  assert (Hq : q <> "").
  { intros ->. change (Text.lower "") with "" in Hc.
    rewrite (contains_in_empty k Hne) in Hc. discriminate. }
  split; [exact Hq|]. unfold should_escalate.
  destruct (decide (q = "")); [contradiction|].
  apply existsb_exists. exists k. split; [apply list_elem_of_In, Hk | exact Hc].
Qed.

(** ** The pipeline *)

Section ChatFacts.

Variable round3 : Q -> Q.
Variable FAQ_LIST : list faq.
Variable MODEL_FALLBACKS : list string.
Variable create : nat -> string -> list message -> call_result.

Lemma chat_by_branch (db : database) (req : request) :
  chat round3 FAQ_LIST MODEL_FALLBACKS create db req =
  match branch_of round3 FAQ_LIST req with
  | Rejected => Handled no_query db []
  | Escalated sid q =>
      Handled (Response 200 (outcome_body handoff_message "rule-based" "escalated" sid))
              (record_turn db sid q handoff_message) []
  | Faulted e =>
      Handled (Response 500 (<["error" := VStr "Internal server error"]>
                              (<["detail" := VExn e]> ∅)))
              db [Log ERROR "Unhandled error in /chat"]
  | FaqMatched sid q a sc =>
      Handled (Response 200 (<["match_score" := VNum sc]>
                              (outcome_body a "faq" "responded" sid)))
              (record_turn db sid q a) []
  | Generative sid q => generate MODEL_FALLBACKS create db sid q
  end.
Proof.
  unfold chat, branch_of.
  destruct (req_query req) as [q|]; [|reflexivity].
  destruct (decide (q = "")); [reflexivity|].
  destruct (should_escalate (Some q)); [reflexivity|].
  destruct (find_relevant_faq round3 FAQ_LIST (Some q) default_threshold) as [e|[[a|] sc]];
    [reflexivity | | reflexivity].
  destruct (decide (a = "")); reflexivity.
Qed.

(** Skipping a run of models that all raise. *)
Lemma try_models_failed (db : database) (sid q : string) (msgs : list message)
    (failed errs rest : list string) (n : nat) (last_error : option string)
    (warnings : list log_record) :
  length errs = length failed ->
  (forall i m e, failed !! i = Some m -> errs !! i = Some e ->
                 create (n + i) m msgs = CallRaises e) ->
  try_models create db sid q msgs (failed ++ rest) n last_error warnings
  = try_models create db sid q msgs rest (n + length failed)
      (from_option Some last_error (last errs))
      (warnings ++ zip_with model_failed failed errs).
Proof.
  revert errs n last_error warnings.
  induction failed as [|m failed IH]; intros errs n last_error warnings Hlen Hraise.
  - destruct errs; [|discriminate]. cbn [app length zip_with last from_option].
    rewrite Nat.add_0_r, app_nil_r. reflexivity.
  - destruct errs as [|e errs]; [discriminate|].
    cbn [app try_models].
    pose proof (Hraise 0%nat m e eq_refl eq_refl) as H0. rewrite Nat.add_0_r in H0.
    rewrite H0, IH with (errs := errs).
    + cbn [length zip_with]. rewrite <- app_assoc. cbn [app].
      replace (S n + length failed)%nat with (n + S (length failed))%nat by lia.
      f_equal. rewrite last_cons. destruct (last errs); reflexivity.
    + cbn [length] in Hlen. lia.
    + intros i m' e' Hm He. replace (S n + i)%nat with (n + S i)%nat by lia.
      apply Hraise; assumption.
Qed.

Lemma try_models_success (db : database) (sid q : string) (msgs : list message)
    (model : string) (rest : list string) (n : nat) (last_error : option string)
    (warnings : list log_record) (resp : completion) :
  create n model msgs = CallReturns resp ->
  try_models create db sid q msgs (model :: rest) n last_error warnings
  = let reply_action := classify_reply (extract_reply resp) in
    Handled (Response 200 (outcome_body (fst reply_action) ("llm:" +:+ model)
                             (snd reply_action) sid))
            (record_turn db sid q (fst reply_action)) warnings.
Proof.
  intros H. cbn [try_models]. rewrite H.
  destruct (classify_reply (extract_reply resp)) as [final action]. reflexivity.
Qed.

End ChatFacts.

(** ** Reply bodies *)

Lemma outcome_body_response (r src a sid : string) :
  outcome_body r src a sid !! "response" = Some (VStr r).
Proof. reflexivity. Qed.

Lemma outcome_body_source (r src a sid : string) :
  outcome_body r src a sid !! "source" = Some (VStr src).
Proof. reflexivity. Qed.

Lemma outcome_body_action (r src a sid : string) :
  outcome_body r src a sid !! "action" = Some (VStr a).
Proof. reflexivity. Qed.

Lemma outcome_body_session_id (r src a sid : string) :
  outcome_body r src a sid !! "session_id" = Some (VStr sid).
Proof. reflexivity. Qed.

Lemma outcome_body_error (r src a sid : string) :
  outcome_body r src a sid !! "error" = None.
Proof. reflexivity. Qed.

Lemma outcome_body_dom (r src a sid : string) :
  dom (outcome_body r src a sid) = four_fields.
Proof.
  unfold outcome_body, four_fields. rewrite !dom_insert_L, dom_empty_L. set_solver.
Qed.

Section Pipeline.

Variable round3 : Q -> Q.
Variable FAQ_LIST : list faq.
Variable MODEL_FALLBACKS : list string.
Variable create : nat -> string -> list message -> call_result.

Lemma classify_reply_action (bot_reply : string) :
  snd (classify_reply bot_reply) = "escalated" \/ snd (classify_reply bot_reply) = "responded".
Proof. unfold classify_reply. destruct (Text.contains _ bot_reply); cbn [snd]; auto. Qed.

(** The two ways the loop over the models ends. *)
Lemma try_models_cases (db : database) (sid q : string) (msgs : list message)
    (models : list string) (n : nat) (last_error : option string)
    (warnings : list log_record) :
  let h := try_models create db sid q msgs models n last_error warnings in
  (exists m final action,
      m ∈ models /\ (action = "escalated" \/ action = "responded")
      /\ reply h = Response 200 (outcome_body final ("llm:" +:+ m) action sid)
      /\ db_after h = record_turn db sid q final)
  \/ (exists e, reply h = backend_failed e /\ db_after h = db
      /\ forall i m, models !! i = Some m -> exists e', create (n + i) m msgs = CallRaises e').
Proof.
  revert n last_error warnings.
  induction models as [|m models IH]; intros n last_error warnings h.
  - right. exists last_error. repeat split. intros i m Hm. discriminate.
  - subst h. destruct (create n m msgs) as [e|resp] eqn:Hcall.
    + cbn [try_models]. rewrite Hcall.
      destruct (IH (S n) (Some e) (warnings ++ [model_failed m e]))
        as [(m' & final & action & Hin & Hact & Hr & Hdb) | (e' & Hr & Hdb & Hall)].
      * left. exists m', final, action. repeat split; try assumption.
        apply elem_of_cons. right. exact Hin.
      * right. exists e'. repeat split; try assumption.
        intros [|i] m' Hm'.
        -- injection Hm' as <-. rewrite Nat.add_0_r. eauto.
        -- replace (n + S i)%nat with (S n + i)%nat by lia. apply Hall. exact Hm'.
    + left. rewrite (try_models_success create db sid q msgs m models n _ _ resp Hcall).
      exists m, (fst (classify_reply (extract_reply resp))),
             (snd (classify_reply (extract_reply resp))).
      repeat split; [apply elem_of_cons; left; reflexivity | apply classify_reply_action].
Qed.

(** The generative stage when a run of models fails and the next answers. *)
Lemma chat_generative_success (db : database) (req : request) (sid q : string)
    (failed errs : list string) (model : string) (rest : list string) (resp : completion) :
  branch_of round3 FAQ_LIST req = Generative sid q ->
  MODEL_FALLBACKS = failed ++ model :: rest ->
  length errs = length failed ->
  (forall i m e, failed !! i = Some m -> errs !! i = Some e ->
                 create i m (prompt db sid q) = CallRaises e) ->
  create (length failed) model (prompt db sid q) = CallReturns resp ->
  chat round3 FAQ_LIST MODEL_FALLBACKS create db req
  = Handled (Response 200 (outcome_body (fst (classify_reply (extract_reply resp)))
                             ("llm:" +:+ model)
                             (snd (classify_reply (extract_reply resp))) sid))
            (record_turn db sid q (fst (classify_reply (extract_reply resp))))
            (zip_with model_failed failed errs).
Proof.
  intros Hb Hm Hlen Hfail Hok. rewrite chat_by_branch, Hb. unfold generate. rewrite Hm.
  rewrite (try_models_failed create db sid q _ failed errs) by assumption.
  rewrite (try_models_success create db sid q _ model rest _ _ _ resp) by exact Hok.
  reflexivity.
Qed.

(** The generative stage when every model fails. *)
Lemma chat_generative_exhausted (db : database) (req : request) (sid q : string)
    (errs : list string) :
  branch_of round3 FAQ_LIST req = Generative sid q ->
  length errs = length MODEL_FALLBACKS ->
  (forall i m e, MODEL_FALLBACKS !! i = Some m -> errs !! i = Some e ->
                 create i m (prompt db sid q) = CallRaises e) ->
  chat round3 FAQ_LIST MODEL_FALLBACKS create db req
  = Handled (backend_failed (last errs)) db (zip_with model_failed MODEL_FALLBACKS errs).
Proof.
  intros Hb Hlen Hfail. rewrite chat_by_branch, Hb. unfold generate.
  rewrite <- (app_nil_r MODEL_FALLBACKS) at 1.
  rewrite (try_models_failed create db sid q _ MODEL_FALLBACKS errs) by assumption.
  cbn [try_models app]. destruct (last errs); reflexivity.
Qed.

End Pipeline.



(** With writes that complete: the models are tried in list order.  (a) If
    the first [length failed] calls raise and the next returns, the reply
    names that next model as its source and one warning per failed model
    was logged, in order.  (b) If every call raises, the reply is the error
    "AI backend failed" with the last error as detail, the database is
    untouched and one warning per model was logged.  (c) The reply is that
    error only if every configured model was called and raised, and then
    nothing was written. *)
Lemma fallback_with_completed_writes (round3 : Q -> Q) (FAQ_LIST : list faq) (MODEL_FALLBACKS : list string)
    (create : nat -> string -> list message -> call_result)
    (db : database) (req : request) :
  let h := chat round3 FAQ_LIST MODEL_FALLBACKS create db req in
  (forall sid q failed errs model rest resp,
      branch_of round3 FAQ_LIST req = Generative sid q ->
      MODEL_FALLBACKS = failed ++ model :: rest ->
      length errs = length failed ->
      (forall i m e, failed !! i = Some m -> errs !! i = Some e ->
                     create i m (prompt db sid q) = CallRaises e) ->
      create (length failed) model (prompt db sid q) = CallReturns resp ->
      status (reply h) = 200%nat
      /\ body (reply h) !! "source" = Some (VStr ("llm:" +:+ model))
      /\ logged h = zip_with model_failed failed errs)
  /\ (forall sid q errs,
      branch_of round3 FAQ_LIST req = Generative sid q ->
      length errs = length MODEL_FALLBACKS ->
      (forall i m e, MODEL_FALLBACKS !! i = Some m -> errs !! i = Some e ->
                     create i m (prompt db sid q) = CallRaises e) ->
      reply h = backend_failed (last errs)
      /\ db_after h = db
      /\ logged h = zip_with model_failed MODEL_FALLBACKS errs)
  /\ (body (reply h) !! "error" = Some (VStr "AI backend failed") ->
      db_after h = db
      /\ exists sid q,
           branch_of round3 FAQ_LIST req = Generative sid q
           /\ forall i m, MODEL_FALLBACKS !! i = Some m ->
                          exists e, create i m (prompt db sid q) = CallRaises e).
Proof.
  intros h. split; [|split].
  - intros sid q failed errs model rest resp Hb Hm Hlen Hfail Hok. subst h.
    rewrite (chat_generative_success round3 FAQ_LIST MODEL_FALLBACKS create db req sid q
               failed errs model rest resp Hb Hm Hlen Hfail Hok).
    repeat split.
  - intros sid q errs Hb Hlen Hfail. subst h.
    rewrite (chat_generative_exhausted round3 FAQ_LIST MODEL_FALLBACKS create db req sid q
               errs Hb Hlen Hfail).
    repeat split.
  - subst h. rewrite chat_by_branch.
    destruct (branch_of round3 FAQ_LIST req) as [|sid q|e|sid q a sc|sid q];
      cbn [reply body db_after]; try (intros H; vm_compute in H; discriminate).
    intros Herr. unfold generate in *.
    destruct (try_models_cases create db sid q (prompt db sid q) MODEL_FALLBACKS 0 None [])
      as [(m & final & action & _ & _ & Hr & _) | (e & _ & Hdb & Hall)].
    + rewrite Hr in Herr. cbn [body] in Herr. rewrite outcome_body_error in Herr. discriminate.
    + split; [exact Hdb|]. exists sid, q. split; [reflexivity|]. exact Hall.
Qed.

Lemma record_turn_rows (db : database) (sid q a : string) :
  conversations (record_turn db sid q a)
  = conversations db ++ [Row (sqlite_sequence db + 1) sid "user" q;
                         Row (sqlite_sequence db + 1 + 1) sid "assistant" a].
Proof.
  unfold record_turn, save_message. cbn [conversations sqlite_sequence].
  rewrite <- app_assoc. reflexivity.
Qed.

Lemma branch_of_query (round3 : Q -> Q) (FAQ_LIST : list faq) (req : request) :
  match branch_of round3 FAQ_LIST req with
  | Rejected => req_query req = None \/ req_query req = Some ""
  | Faulted _ => exists q, req_query req = Some q /\ q <> ""
  | Escalated sid q | FaqMatched sid q _ _ | Generative sid q =>
      req_query req = Some q /\ q <> "" /\ sid = default "default" (req_session_id req)
  end.
Proof.
  unfold branch_of. destruct (req_query req) as [q|]; [|auto].
  destruct (decide (q = "")) as [->|Hq]; [auto|].
  destruct (should_escalate (Some q)); [auto|].
  destruct (find_relevant_faq round3 FAQ_LIST (Some q) default_threshold) as [e|[[a|] sc]]; eauto.
  destruct (decide (a = "")); auto.
Qed.

(** With writes that complete: every call of [chat] either answers with
    status 200 and appends exactly two rows for the request's session, the
    query with role "user" and then the returned response with role
    "assistant", or answers with another status and leaves the database as
    it was.  A missing or empty query is of the second kind (reply "No query
    provided"), and so is the reply "AI backend failed". *)
Lemma chat_whole_turn_or_nothing (round3 : Q -> Q) (FAQ_LIST : list faq) (MODEL_FALLBACKS : list string)
    (create : nat -> string -> list message -> call_result)
    (db : database) (req : request) :
  let h := chat round3 FAQ_LIST MODEL_FALLBACKS create db req in
  let sid := default "default" (req_session_id req) in
  ((exists q a,
       req_query req = Some q
       /\ status (reply h) = 200%nat
       /\ body (reply h) !! "response" = Some (VStr a)
       /\ conversations (db_after h)
          = conversations db ++ [Row (sqlite_sequence db + 1) sid "user" q;
                                 Row (sqlite_sequence db + 1 + 1) sid "assistant" a])
   \/ (status (reply h) <> 200%nat /\ db_after h = db))
  /\ (req_query req = None \/ req_query req = Some "" ->
      reply h = no_query /\ db_after h = db)
  /\ (body (reply h) !! "error" = Some (VStr "AI backend failed") ->
      status (reply h) = 500%nat /\ db_after h = db).
Proof.
  intros h sid. subst h.
  pose proof (branch_of_query round3 FAQ_LIST req) as Hq.
  rewrite chat_by_branch.
  destruct (branch_of round3 FAQ_LIST req) as [|s q|e|s q a sc|s q]; cbn [reply body db_after status].
  - split; [right; split; [discriminate | reflexivity]|].
    split; [auto | intros H; vm_compute in H; discriminate].
  - destruct Hq as (Hq & Hne & ->). fold sid.
    split; [left; exists q, handoff_message; rewrite record_turn_rows; auto|].
    split; [intros [H|H]; congruence | intros H; vm_compute in H; discriminate].
  - destruct Hq as (q & Hq & Hne).
    split; [right; split; [discriminate | reflexivity]|].
    split; [intros [H|H]; congruence | intros H; vm_compute in H; discriminate].
  - destruct Hq as (Hq & Hne & ->). fold sid.
    split; [left; exists q, a; rewrite record_turn_rows; auto|].
    split; [intros [H|H]; congruence | intros H; vm_compute in H; discriminate].
  - destruct Hq as (Hq & Hne & ->). fold sid. unfold generate.
    destruct (try_models_cases create db sid q (prompt db sid q) MODEL_FALLBACKS 0 None [])
      as [(m & final & action & _ & _ & Hr & Hdb) | (e & Hr & Hdb & _)];
      cbn zeta in Hr, Hdb; rewrite Hr, Hdb; cbn [status body].
    + split; [left; exists q, final; rewrite record_turn_rows, outcome_body_response; auto|].
      split; [intros [H|H]; congruence|].
      rewrite outcome_body_error. discriminate.
    + split; [right; split; [discriminate | reflexivity]|].
      split; [intros [H|H]; congruence | auto].
Qed.

(** C7, as the code has it.  A reply of status 200 carries the fields
    response, source, action and session_id, all strings: the source is
    "rule-based", "faq" or "llm:" followed by a configured model, the action
    is "escalated" or "responded", the session id is the request's.  These
    are all its fields unless the source is "faq"; the FAQ reply carries one
    more, the number match_score. *)
Theorem success_reply_fields (round3 : Q -> Q) (FAQ_LIST : list faq) (MODEL_FALLBACKS : list string)
    (create : nat -> string -> list message -> call_result)
    (db : database) (req : request) :
  let h := chat round3 FAQ_LIST MODEL_FALLBACKS create db req in
  status (reply h) = 200%nat ->
  exists resp src action,
    body (reply h) !! "response" = Some (VStr resp)
    /\ body (reply h) !! "source" = Some (VStr src)
    /\ body (reply h) !! "action" = Some (VStr action)
    /\ body (reply h) !! "session_id" = Some (VStr (default "default" (req_session_id req)))
    /\ (src = "rule-based" \/ src = "faq"
        \/ exists m, m ∈ MODEL_FALLBACKS /\ src = "llm:" +:+ m)
    /\ (action = "escalated" \/ action = "responded")
    /\ (src <> "faq" -> dom (body (reply h)) = four_fields)
    /\ (src = "faq" ->
        dom (body (reply h)) = four_fields ∪ {[ "match_score" ]}
        /\ exists score, body (reply h) !! "match_score" = Some (VNum score)).
Proof.
  intros h. subst h.
  pose proof (branch_of_query round3 FAQ_LIST req) as Hq.
  rewrite chat_by_branch.
  destruct (branch_of round3 FAQ_LIST req) as [|s q|e|s q a sc|s q]; cbn [reply body status];
    try discriminate.
  - destruct Hq as (_ & _ & ->). intros _.
    exists handoff_message, "rule-based", "escalated".
    do 4 (split; [reflexivity|]). split; [auto|]. split; [auto|].
    split; [intros _; apply outcome_body_dom | discriminate].
  - destruct Hq as (_ & _ & ->). intros _.
    exists a, "faq", "responded".
    do 4 (split; [reflexivity|]). split; [auto|]. split; [auto|].
    split; [intros H; contradiction|]. intros _. split; [|eauto].
    rewrite dom_insert_L, outcome_body_dom. set_solver.
  - destruct Hq as (_ & _ & ->). unfold generate.
    destruct (try_models_cases create db (default "default" (req_session_id req)) q
                (prompt db (default "default" (req_session_id req)) q)
                MODEL_FALLBACKS 0 None [])
      as [(m & final & action & Hin & Hact & Hr & _) | (e & Hr & _)];
      cbn zeta in Hr; rewrite Hr; cbn [status body]; [|discriminate].
    intros _. exists final, ("llm:" +:+ m), action.
    do 4 (split; [reflexivity|]). split; [eauto|]. split; [exact Hact|].
    split; [intros _; apply outcome_body_dom|].
    intros H. vm_compute in H. discriminate H.
Qed.

(** ** Sample runs *)



Lemma success_reply_fields_witness :
  exists resp src action,
    body (reply (chat round_half_even sample_faqs two_models dead_backend init_db password_request))
      !! "response" = Some (VStr resp)
    /\ body (reply (chat round_half_even sample_faqs two_models dead_backend init_db password_request))
      !! "source" = Some (VStr src)
    /\ body (reply (chat round_half_even sample_faqs two_models dead_backend init_db password_request))
      !! "action" = Some (VStr action).
Proof.
  destruct (success_reply_fields round_half_even sample_faqs two_models dead_backend init_db password_request)
    as (resp & src & action & H1 & H2 & H3 & _).
  - vm_compute. reflexivity.
  - exists resp, src, action. auto.
Defined.

(** C7, as stated, fails: the reply of the FAQ branch has status 200 and a
    fifth field, match_score. *)
Lemma faq_reply_has_fifth_field :
  ~ (forall round3 FAQ_LIST MODEL_FALLBACKS create db req,
       status (reply (chat round3 FAQ_LIST MODEL_FALLBACKS create db req)) = 200%nat ->
       dom (body (reply (chat round3 FAQ_LIST MODEL_FALLBACKS create db req))) = four_fields).
Proof.
  intros H.
  specialize (H round_half_even sample_faqs two_models dead_backend init_db password_request).
  assert (Hs : status (reply (chat round_half_even sample_faqs two_models dead_backend init_db
                                password_request)) = 200%nat)
    by (vm_compute; reflexivity).
  specialize (H Hs).
  assert (Hin : "match_score" ∈ dom (body (reply (chat round_half_even sample_faqs two_models dead_backend
                                                   init_db password_request)))).
  { apply elem_of_dom. exists (VNum (333 # 1000)). vm_compute. reflexivity. }
  rewrite H in Hin. unfold four_fields in Hin.
  rewrite !elem_of_union, !elem_of_singleton in Hin.
  destruct Hin as [[[Hin|Hin]|Hin]|Hin]; discriminate Hin.
Qed.

(** ** find_relevant_faq *)

Lemma scan_typed (q_tokens : gset string) (faqs : list faq) (texts : list faq_text) (b : best) :
  for_each faq_strings faqs = Return texts ->
  scan q_tokens b faqs = Return (foldl (scan_text q_tokens) b texts).
Proof.
  revert texts b. induction faqs as [|f faqs IH]; intros texts b H.
  - injection H as <-. reflexivity.
  - cbn [for_each] in H. cbn [scan]. unfold scan_step.
    destruct (faq_strings f) as [e|x]; [discriminate|].
    cbn [mbind result_bind] in H |- *.
    destruct (for_each faq_strings faqs) as [e|xs]; [discriminate|].
    cbn [mbind result_bind] in H. injection H as <-.
    cbn [foldl]. rewrite <- (IH xs _ eq_refl). unfold scan_text, entry_tokens.
    destruct (decide (token_set (Some (combined x)) = ∅)); [reflexivity|].
    destruct (_ ?= _)%Q; reflexivity.
Qed.

Lemma scanned_nonneg (q_tokens : gset string) (seen : list faq_text) (b : best) :
  scanned q_tokens seen b -> (0 <= best_score b)%Q.
Proof.
  intros [_ H]. destruct (best_faq b).
  - destruct H as (i & _ & _ & _ & Hpos & _). apply Qlt_le_weak, Hpos.
  - rewrite H. apply Qle_refl.
Qed.

Lemma scanned_step (q_tokens : gset string) (seen : list faq_text) (b : best) (x : faq_text) :
  scanned q_tokens seen b -> scanned q_tokens (seen ++ [x]) (scan_text q_tokens b x).
Proof.
  intros Hinv. pose proof (scanned_nonneg _ _ _ Hinv) as Hnn.
  destruct Hinv as [Hmax Hbest].
  assert (Hkeep : forall i y, seen !! i = Some y -> (seen ++ [x]) !! i = Some y).
  { intros i y Hy. rewrite lookup_app_l; [exact Hy|]. eapply lookup_lt_Some, Hy. }
  assert (Hold : forall i y, (seen ++ [x]) !! i = Some y ->
                 seen !! i = Some y \/ (i = length seen /\ y = x)).
  { intros i y Hy. destruct (decide (i < length seen)%nat) as [Hlt|Hge].
    - left. rewrite lookup_app_l in Hy by exact Hlt. exact Hy.
    - right. rewrite lookup_app_r in Hy by lia.
      destruct (i - length seen)%nat as [|k] eqn:Hk; [|discriminate].
      injection Hy as <-. split; [lia | reflexivity]. }
  unfold scan_text.
  destruct (decide (entry_tokens x = ∅)) as [Hempty|Hne].
  - split.
    + intros i y Hy Hty. destruct (Hold i y Hy) as [Hs|[_ ->]]; [eauto | contradiction].
    + destruct (best_faq b) as [x0|]; [|exact Hbest].
      destruct Hbest as (i & Hi & Ht & Hs & Hpos & Hfirst).
      exists i. repeat split; auto.
      intros j y Hj Hy Hty. destruct (Hold j y Hy) as [Hs'|[-> _]]; [eauto|].
      apply lookup_lt_Some in Hi. lia.
  - destruct (score_of q_tokens (entry_tokens x) ?= best_score b)%Q eqn:Hcmp.
    + apply Qeq_alt in Hcmp. split.
      * intros i y Hy Hty. destruct (Hold i y Hy) as [Hs|[_ ->]]; [eauto|].
        rewrite Hcmp. apply Qle_refl.
      * destruct (best_faq b) as [x0|]; [|exact Hbest].
        destruct Hbest as (i & Hi & Ht & Hs & Hpos & Hfirst).
        exists i. repeat split; auto.
        intros j y Hj Hy Hty. destruct (Hold j y Hy) as [Hs'|[-> _]]; [eauto|].
        apply lookup_lt_Some in Hi. lia.
    + apply Qlt_alt in Hcmp. split.
      * intros i y Hy Hty. destruct (Hold i y Hy) as [Hs|[_ ->]]; [eauto|].
        apply Qlt_le_weak, Hcmp.
      * destruct (best_faq b) as [x0|]; [|exact Hbest].
        destruct Hbest as (i & Hi & Ht & Hs & Hpos & Hfirst).
        exists i. repeat split; auto.
        intros j y Hj Hy Hty. destruct (Hold j y Hy) as [Hs'|[-> _]]; [eauto|].
        apply lookup_lt_Some in Hi. lia.
    + apply Qgt_alt in Hcmp. cbn [best_score best_faq]. split.
      * intros i y Hy Hty. destruct (Hold i y Hy) as [Hs|[_ ->]]; [|apply Qle_refl].
        apply Qlt_le_weak. eapply Qle_lt_trans; [apply (Hmax i y Hs Hty) | exact Hcmp].
      * exists (length seen). split; [|split; [exact Hne|split; [reflexivity|split]]].
        -- rewrite lookup_app_r by lia. rewrite Nat.sub_diag. reflexivity.
        -- eapply Qle_lt_trans; [exact Hnn | exact Hcmp].
        -- intros j y Hj Hy Hty. destruct (Hold j y Hy) as [Hs|[-> _]]; [|lia].
           eapply Qle_lt_trans; [apply (Hmax j y Hs Hty) | exact Hcmp].
Qed.

Lemma scanned_foldl (q_tokens : gset string) (texts seen : list faq_text) (b : best) :
  scanned q_tokens seen b ->
  scanned q_tokens (seen ++ texts) (foldl (scan_text q_tokens) b texts).
Proof.
  revert seen b. induction texts as [|x texts IH]; intros seen b H.
  - rewrite app_nil_r. exact H.
  - cbn [foldl]. replace (seen ++ x :: texts) with ((seen ++ [x]) ++ texts)
      by (rewrite <- app_assoc; reflexivity).
    apply IH, scanned_step, H.
Qed.

Lemma scanned_start (q_tokens : gset string) : scanned q_tokens [] (Best 0 None).
Proof. split; [intros i y H; discriminate | reflexivity]. Qed.

(** [round_half_even x] is a multiple of 1/1000 at most 1/2000 away from [x]. *)
Lemma round_half_even_nearest (x : Q) :
  (Qabs (round_half_even x - x) <= 1 # 2000)%Q /\ exists k : Z, round_half_even x = k # 1000.
Proof.
  destruct x as [n d]. unfold round_half_even. cbn [Qnum Qden].
  pose proof (Z.div_mod (n * 1000) (Z.pos d) ltac:(lia)) as Hdm.
  pose proof (Z.mod_pos_bound (n * 1000) (Z.pos d) ltac:(lia)) as Hr.
  set (k := (n * 1000 / Z.pos d)%Z) in *. set (r := ((n * 1000) mod Z.pos d)%Z) in *.
  split; [|eexists; reflexivity].
  unfold Qle, Qabs, Qminus, Qplus, Qopp. cbn [Qnum Qden].
  rewrite Pos2Z.inj_mul.
  destruct (Z.compare_spec (2 * r) (Z.pos d)) as [Heq|Hlt|Hgt].
  - destruct (Z.even k); lia.
  - lia.
  - lia.
Qed.


Lemma for_each_total {A B : Type} (f : A -> result B) (l : list A) :
  Forall (fun a => exists b, f a = Return b) l -> exists ys, for_each f l = Return ys.
Proof.
  induction 1 as [|a l [b Hb] Hl [ys IH]]; [exists []; reflexivity|].
  exists (b :: ys). cbn [for_each]. rewrite Hb, IH. reflexivity.
Qed.

(** [for_each] keeps positions. *)
Lemma for_each_lookup {A B : Type} (f : A -> result B) (l : list A) (ys : list B) :
  for_each f l = Return ys ->
  forall i,
    (forall y, ys !! i = Some y -> exists a, l !! i = Some a /\ f a = Return y)
    /\ (forall a, l !! i = Some a -> exists y, ys !! i = Some y /\ f a = Return y).
Proof.
  revert ys. induction l as [|a l IH]; intros ys H.
  - injection H as <-. intros i. split; intros z Hz; discriminate.
  - cbn [for_each] in H. destruct (f a) as [e|b] eqn:Hfa; [discriminate|].
    cbn [mbind result_bind] in H.
    destruct (for_each f l) as [e|bs]; [discriminate|].
    cbn [mbind result_bind] in H. injection H as <-.
    intros [|i].
    + split; intros z Hz; injection Hz as <-; eauto.
    + apply (IH bs eq_refl i).
Qed.



(** ** load_faqs *)

Lemma for_each_objects (objects : list (list (string * json))) :
  for_each faq_of_item (map JObj objects) = Return (map entry_of_object objects).
Proof.
  induction objects as [|o objects IH]; [reflexivity|].
  cbn [map for_each]. rewrite IH. unfold faq_of_item, item_get, entry_of_object.
  cbn [mbind result_bind]. destruct (member "tags" o); reflexivity.
Qed.


(** An element of a list-shaped file that is not an object has no [get]:
    the exception is raised outside the [try] of lines 79-84 and escapes. *)
Lemma load_faqs_item_not_object (items : list json) (i : nat) (v : json) :
  items !! i = Some v ->
  (forall members, v <> JObj members) ->
  exists e, fst (load_faqs (ReadReturns (JArr items))) = Raise e.
Proof.
  intros Hv Hno. cbn [load_faqs fst]. revert i Hv.
  induction items as [|x items IH]; intros i Hv; [discriminate|].
  cbn [for_each]. destruct i as [|i].
  - injection Hv as ->. exists AttributeError.
    destruct v; try reflexivity. exfalso. eapply Hno. reflexivity.
  - destruct (faq_of_item x) as [e|f]; [exists e; reflexivity|].
    cbn [mbind result_bind]. destruct (IH i Hv) as [e He]. exists e. rewrite He. reflexivity.
Qed.

(** An entry with a string question, a string answer and a list of string
    tags is read through those strings, the tags joined by spaces. *)
Lemma faq_strings_of_strings (q a : string) (ts : list string) :
  faq_strings (Faq (JStr q) (JStr a) (JArr (map JStr ts)))
  = Return (FaqText q a (Text.join " " ts)).
Proof.
  unfold faq_strings, join_tags. cbn [question answer tags].
  assert (H : for_each (fun v => match v with JStr s => Return s | _ => Raise TypeError end)
                       (map JStr ts) = Return ts).
  { induction ts as [|t ts IH]; [reflexivity|]. cbn [map for_each]. rewrite IH. reflexivity. }
  rewrite H. reflexivity.
Qed.

(** The handler keeps the table consistent. *)
Lemma chat_consistent (round3 : Q -> Q) (FAQ_LIST : list faq) (MODEL_FALLBACKS : list string)
    (create : nat -> string -> list message -> call_result)
    (db : database) (req : request) :
  consistent db -> consistent (db_after (chat round3 FAQ_LIST MODEL_FALLBACKS create db req)).
Proof.
  intros Hdb. rewrite chat_by_branch.
  destruct (branch_of round3 FAQ_LIST req) as [|s q|e|s q a sc|s q]; cbn [db_after];
    try exact Hdb; try (apply consistent_save_message, consistent_save_message, Hdb).
  unfold generate.
  destruct (try_models_cases create db s q (prompt db s q) MODEL_FALLBACKS 0 None [])
    as [(m & final & action & _ & _ & _ & Hd) | (e & _ & Hd & _)];
    cbn zeta in Hd; rewrite Hd; [|exact Hdb].
  apply consistent_save_message, consistent_save_message, Hdb.
Qed.

(** The end-to-end run of the specification: the password question on the
    sample entry is answered from the FAQ and recorded as two rows. *)
Example password_run :
  let h := chat round_half_even sample_faqs configured_models dead_backend init_db password_request in
  body (reply h) !! "response" = Some (VStr "Go to settings")
  /\ body (reply h) !! "source" = Some (VStr "faq")
  /\ body (reply h) !! "action" = Some (VStr "responded")
  /\ get_history (db_after h) "s1"
     = [Message "user" "How do I reset my password?"; Message "assistant" "Go to settings"].
Proof. vm_compute. repeat split. Qed.

(** * Further properties of the code *)

(** ** The conversation log across sessions and turns *)

Lemma as_message_user (i : Z) (s c : string) : as_message (Row i s "user" c) = Message "user" c.
Proof. reflexivity. Qed.

Lemma as_message_assistant (i : Z) (s c : string) :
  as_message (Row i s "assistant" c) = Message "assistant" c.
Proof. reflexivity. Qed.

(** What a call of [chat] does to the table: a whole turn, or nothing. *)
Lemma chat_db_after (round3 : Q -> Q) (FAQ_LIST : list faq) (MODEL_FALLBACKS : list string)
    (create : nat -> string -> list message -> call_result)
    (db : database) (req : request) :
  let h := chat round3 FAQ_LIST MODEL_FALLBACKS create db req in
  (status (reply h) = 200%nat
   /\ exists q a, req_query req = Some q
        /\ body (reply h) !! "response" = Some (VStr a)
        /\ db_after h = record_turn db (default "default" (req_session_id req)) q a)
  \/ (status (reply h) <> 200%nat /\ db_after h = db).
Proof.
  intros h. subst h.
  pose proof (branch_of_query round3 FAQ_LIST req) as Hq.
  rewrite chat_by_branch.
  destruct (branch_of round3 FAQ_LIST req) as [|s q|e|s q a sc|s q];
    cbn [reply body db_after status].
  - right. split; [discriminate | reflexivity].
  - destruct Hq as (Hq & _ & ->). left. split; [reflexivity|]. exists q, handoff_message. auto.
  - right. split; [discriminate | reflexivity].
  - destruct Hq as (Hq & _ & ->). left. split; [reflexivity|]. exists q, a. auto.
  - destruct Hq as (Hq & _ & ->). unfold generate.
    destruct (try_models_cases create db (default "default" (req_session_id req)) q
                (prompt db (default "default" (req_session_id req)) q)
                MODEL_FALLBACKS 0 None [])
      as [(m & final & action & _ & _ & Hr & Hdb) | (e & Hr & Hdb & _)];
      cbn zeta in Hr, Hdb; rewrite Hr, Hdb; cbn [status body].
    + left. split; [reflexivity|]. exists q, final. rewrite outcome_body_response. auto.
    + right. split; [discriminate | reflexivity].
Qed.

Lemma get_history_same_rows (db db' : database) (s : string) :
  filter (of_session s) (conversations db') = filter (of_session s) (conversations db) ->
  get_history db' s = get_history db s.
Proof. intros H. unfold get_history, select_session. rewrite H. reflexivity. Qed.

Lemma record_turn_other_session (db : database) (sid q a s : string) :
  s <> sid ->
  filter (of_session s) (conversations (record_turn db sid q a))
  = filter (of_session s) (conversations db).
Proof.
  intros Hne. rewrite record_turn_rows, filter_app.
  rewrite !filter_cons_False, filter_nil, app_nil_r; [reflexivity | |];
    unfold of_session; cbn [row_session_id]; congruence.
Qed.

Lemma delete_session_other_session (db : database) (sid s : string) :
  s <> sid ->
  filter (of_session s) (conversations (delete_session db sid))
  = filter (of_session s) (conversations db).
Proof.
  intros Hne. cbn [delete_session conversations].
  induction (conversations db) as [|r l IH]; [reflexivity|].
  rewrite (filter_cons (fun r => ~ of_session sid r)).
  destruct (decide (~ of_session sid r)) as [Hk|Hd].
  - rewrite !(filter_cons (of_session s)), IH. reflexivity.
  - rewrite IH. rewrite (filter_cons_False (of_session s)); [reflexivity|].
    unfold of_session in *. intros Hs. apply Hd. congruence.
Qed.

(** X1.  No handler touches another session: after [chat] or
    [clear_history] for one session, /history of any other session returns
    what it returned before. *)
Theorem other_sessions_untouched (round3 : Q -> Q) (FAQ_LIST : list faq)
    (MODEL_FALLBACKS : list string)
    (create : nat -> string -> list message -> call_result)
    (db : database) (req : request) (s : string) :
  s <> default "default" (req_session_id req) ->
  history (db_after (chat round3 FAQ_LIST MODEL_FALLBACKS create db req)) (Some s)
  = history db (Some s)
  /\ history (db_after (clear_history db (req_session_id req))) (Some s)
     = history db (Some s).
Proof.
  intros Hne. unfold history. cbn [default]. split.
  - destruct (chat_db_after round3 FAQ_LIST MODEL_FALLBACKS create db req)
      as [(_ & q & a & _ & _ & Hdb) | (_ & Hdb)]; cbn zeta in Hdb; rewrite Hdb;
      [|reflexivity].
    apply get_history_same_rows, record_turn_other_session, Hne.
  - cbn [clear_history db_after].
    apply get_history_same_rows, delete_session_other_session, Hne.
Qed.

Lemma other_sessions_untouched_witness :
  history (db_after (chat round_half_even sample_faqs two_models dead_backend
                          (save_message init_db "s2" "user" "earlier")
                          password_request)) (Some "s2")
  = [Message "user" "earlier"].
Proof.
  rewrite (proj1 (other_sessions_untouched round_half_even sample_faqs two_models
                    dead_backend (save_message init_db "s2" "user" "earlier")
                    password_request "s2" ltac:(discriminate))).
  reflexivity.
Defined.


Lemma history_some (db : database) (s : string) : history db (Some s) = get_history db s.
Proof. reflexivity. Qed.

(** X3.  Round trip of the log: on a table in id order, a message saved
    with any role string is the last one /history returns for its session,
    with its content and with the role read as "assistant" only when it was
    stored as exactly "assistant". *)
Theorem saved_message_is_last (db : database) (s role c : string) :
  consistent db ->
  history (save_message db s role c) (Some s)
  = history db (Some s)
    ++ [Message (if decide (role = "assistant") then "assistant" else "user") c].
Proof.
  intros Hdb. rewrite !history_some.
  rewrite (get_history_save_message db s s role c Hdb).
  destruct (decide (s = s)); [reflexivity | contradiction].
Qed.

Lemma saved_message_is_last_witness :
  history (save_message (save_message init_db "s1" "user" "hi") "s1" "Assistant" "yo")
          (Some "s1")
  = [Message "user" "hi"; Message "user" "yo"].
Proof.
  rewrite (saved_message_is_last (save_message init_db "s1" "user" "hi") "s1" "Assistant" "yo"
             (consistent_save_message _ _ _ _ consistent_init_db)).
  reflexivity.
Defined.

Lemma elem_of_record_turn (db : database) (sid q a : string) (r : row) :
  r ∈ conversations (record_turn db sid q a) ->
  r ∈ conversations db \/ (sqlite_sequence db < id r)%Z.
Proof.
  rewrite record_turn_rows. intros [H|H]%elem_of_app; [left; exact H|]. right.
  apply elem_of_cons in H as [->|H]; [cbn [id]; lia|].
  apply list_elem_of_singleton in H as ->. cbn [id]. lia.
Qed.

(** X4.  The handlers keep the table in id order below the AUTOINCREMENT
    counter, and a row that [chat] adds gets an id above the counter: ids
    are never handed out twice, also after a session was cleared. *)
Theorem ids_grow_and_are_not_reused (round3 : Q -> Q) (FAQ_LIST : list faq)
    (MODEL_FALLBACKS : list string)
    (create : nat -> string -> list message -> call_result)
    (db : database) (req : request) (cleared : option string) :
  consistent db ->
  consistent (db_after (chat round3 FAQ_LIST MODEL_FALLBACKS create db req))
  /\ consistent (db_after (clear_history db cleared))
  /\ (forall r,
        r ∈ conversations (db_after (chat round3 FAQ_LIST MODEL_FALLBACKS create
                                          (db_after (clear_history db cleared)) req)) ->
        r ∈ conversations db \/ (forall r', r' ∈ conversations db -> (id r' < id r)%Z)).
Proof.
  intros Hdb. split; [apply chat_consistent, Hdb|].
  split; [apply consistent_delete_session, Hdb|].
  intros r Hr. cbn [clear_history db_after] in Hr.
  destruct (chat_db_after round3 FAQ_LIST MODEL_FALLBACKS create
              (delete_session db (default "default" cleared)) req)
    as [(_ & q & a & _ & _ & Hd) | (_ & Hd)]; cbn zeta in Hd; rewrite Hd in Hr.
  - apply elem_of_record_turn in Hr as [Hr|Hr].
    + left. cbn [delete_session conversations] in Hr.
      apply list_elem_of_filter in Hr as [_ Hr]. exact Hr.
    + right. intros r' Hr'. cbn [delete_session sqlite_sequence] in Hr.
      destruct Hdb as [_ Hb]. rewrite Forall_forall in Hb. specialize (Hb r' Hr'). lia.
  - left. cbn [delete_session conversations] in Hr.
    apply list_elem_of_filter in Hr as [_ Hr]. exact Hr.
Qed.

Lemma ids_grow_and_are_not_reused_witness :
  consistent (db_after (chat round_half_even sample_faqs two_models dead_backend
                             (save_message init_db "s1" "user" "earlier") password_request)).
Proof.
  apply (ids_grow_and_are_not_reused round_half_even sample_faqs two_models dead_backend
           (save_message init_db "s1" "user" "earlier") password_request None).
  apply consistent_save_message, consistent_init_db.
Defined.

(** X5.  After [clear_history] of a session the generative stage starts
    from scratch: the messages it sends for that session are the system
    prompt and the new query, nothing of the erased turns. *)
Theorem cleared_session_has_empty_prompt (db : database) (cleared : option string) (q : string) :
  prompt (db_after (clear_history db cleared)) (default "default" cleared) q
  = [Message "system" system_prompt; Message "user" q]
  /\ history (db_after (clear_history db cleared)) cleared = [].
Proof.
  unfold prompt, history. cbn [clear_history db_after].
  rewrite get_history_delete_session. split; reflexivity.
Qed.

(** ** Escalation and case *)

(** X6.  [should_escalate] is true exactly when some keyword of
    [ESCALATION_KEYWORDS] occurs in the query, case ignored: a query without
    any keyword is never escalated by the rule, and a keyword inside a
    longer word counts. *)
Theorem should_escalate_iff_keyword (q : string) :
  should_escalate (Some q) = true
  <-> exists k, k ∈ ESCALATION_KEYWORDS /\ contains_ignoring_case k q = true.
Proof.
  split.
  - unfold should_escalate. destruct (decide (q = "")); [discriminate|].
    intros (k & Hk & Hc)%existsb_exists. apply list_elem_of_In in Hk.
    exists k. split; [exact Hk|]. unfold contains_ignoring_case.
    pose proof keywords_lower_case as Hl. rewrite Forall_forall in Hl.
    rewrite (proj1 (Hl k Hk)). exact Hc.
  - intros (k & Hk & Hc). apply (should_escalate_keyword q k Hk Hc).
Qed.

Lemma normal_char_lower (c : ascii) : normal_char (Text.lower_char c) = normal_char c.
Proof. all_chars c. Qed.

Lemma smap_smap (f g : ascii -> ascii) (s : string) :
  Text.smap f (Text.smap g s) = Text.smap (fun c => f (g c)) s.
Proof. induction s as [|c s IH]; [reflexivity|]. cbn [Text.smap]. rewrite IH. reflexivity. Qed.

Lemma smap_ext (f g : ascii -> ascii) (s : string) :
  (forall c, f c = g c) -> Text.smap f s = Text.smap g s.
Proof.
  intros H. induction s as [|c s IH]; [reflexivity|]. cbn [Text.smap]. rewrite H, IH.
  reflexivity.
Qed.

Lemma tokenize_some (s : string) :
  tokenize (Some s) = filter long (Text.split (Text.smap normal_char s)).
Proof. apply tokenize_unfold. Qed.

Lemma tokenize_lower (q : string) : tokenize (Some (Text.lower q)) = tokenize (Some q).
Proof.
  rewrite !tokenize_some. unfold Text.lower.
  rewrite smap_smap, (smap_ext _ normal_char _ normal_char_lower). reflexivity.
Qed.

Lemma lower_lower (q : string) : Text.lower (Text.lower q) = Text.lower q.
Proof.
  unfold Text.lower. rewrite smap_smap. apply smap_ext, lower_char_idempotent.
Qed.

(** X7.  Neither the escalation rule nor the matcher sees the case of the
    query: both give on the lower-cased query what they give on the query. *)
Theorem case_of_query_ignored (round3 : Q -> Q) (FAQ_LIST : list faq) (q : string)
    (threshold : Q) :
  should_escalate (Some (Text.lower q)) = should_escalate (Some q)
  /\ find_relevant_faq round3 FAQ_LIST (Some (Text.lower q)) threshold
     = find_relevant_faq round3 FAQ_LIST (Some q) threshold.
Proof.
  split.
  - unfold should_escalate. rewrite lower_lower.
    destruct q as [|c q]; [reflexivity|].
    destruct (decide (Text.lower (String c q) = "")) as [H|_]; [discriminate H|].
    destruct (decide (String c q = "")) as [H|_]; [discriminate H | reflexivity].
  - unfold find_relevant_faq, token_set. rewrite tokenize_lower. reflexivity.
Qed.

(** ** Tokens of joined texts *)

Lemma split_from_app_space (a b cur : string) :
  Text.split_from cur (a +:+ String " " b) = Text.split_from cur a ++ Text.split_from "" b.
Proof.
  revert cur. induction a as [|c a IH]; intros cur.
  - rewrite app_empty_l. rewrite split_from_space by reflexivity.
    cbn [Text.split_from]. destruct (decide (cur = "")); reflexivity.
  - rewrite app_cons. destruct (Text.isspace c) eqn:Hc.
    + rewrite !(split_from_space _ _ _ Hc), IH.
      destruct (decide (cur = "")); reflexivity.
    + rewrite !(split_from_char _ _ _ Hc). apply IH.
Qed.

Lemma tokenize_app_space (a b : string) :
  tokenize (Some (a +:+ " " +:+ b)) = tokenize (Some a) ++ tokenize (Some b).
Proof.
  rewrite !tokenize_some.
  rewrite smap_app.
  change (Text.smap normal_char (" " +:+ b)) with (String " " (Text.smap normal_char b)).
  unfold Text.split. rewrite split_from_app_space, filter_app. reflexivity.
Qed.

(** X8.  The token set of an entry is the union of the token sets of its
    question, of its answer and of its joined tags: concatenating with
    spaces never merges or splits a word. *)
Theorem entry_tokens_union (x : faq_text) :
  entry_tokens x
  = token_set (Some (question_text x)) ∪ token_set (Some (answer_text x))
    ∪ token_set (Some (tags_text x))
  /\ forall a b : string,
       tokenize (Some (a +:+ " " +:+ b)) = tokenize (Some a) ++ tokenize (Some b).
Proof.
  split; [|exact tokenize_app_space].
  unfold entry_tokens, token_set, combined.
  rewrite !tokenize_app_space, !list_to_set_app_L. apply (assoc_L (∪)).
Qed.

Lemma tokenize_one_char (c : ascii) : tokenize (Some (String c "")) = [].
Proof. all_chars c. Qed.

Lemma tokenize_spaced_chars (s : string) :
  tokenize (Some (Text.join " " (Text.chars s))) = [].
Proof.
  induction s as [|c s IH]; [reflexivity|].
  cbn [Text.chars]. destruct s as [|c' s].
  - cbn [Text.chars Text.join]. apply tokenize_one_char.
  - change (Text.join " " (String c "" :: Text.chars (String c' s)))
      with (String c "" +:+ " " +:+ Text.join " " (Text.chars (String c' s))).
    rewrite tokenize_app_space, tokenize_one_char, IH. reflexivity.
Qed.

(** X9.  Tags given as one JSON string instead of a list are joined
    character by character and so contribute no token: the entry is matched
    on its question and answer alone. *)
Theorem string_tags_add_no_token (q a t : string) :
  exists x, faq_strings (Faq (JStr q) (JStr a) (JStr t)) = Return x
            /\ entry_tokens x = token_set (Some q) ∪ token_set (Some a).
Proof.
  eexists. split; [reflexivity|].
  unfold entry_tokens, token_set, combined. cbn [question_text answer_text tags_text].
  rewrite !tokenize_app_space, tokenize_spaced_chars, app_nil_r, list_to_set_app_L.
  reflexivity.
Qed.

(** ** Scores and matches *)

Lemma pos_of_nat_Z (n : nat) : n <> 0%nat -> Z.pos (Pos.of_nat n) = Z.of_nat n.
Proof. intros H. rewrite <- positive_nat_Z, Nat2Pos.id by exact H. reflexivity. Qed.

Lemma score_of_den (tokens : gset string) :
  Z.pos (Pos.of_nat (Nat.max 1 (size tokens))) = Z.of_nat (Nat.max 1 (size tokens)).
Proof. apply pos_of_nat_Z. lia. Qed.

Lemma gset_size_nonzero (X : gset string) : size X <> 0%nat <-> X <> ∅.
Proof.
  rewrite size_non_empty_iff. split; intros H Heq; apply H.
  - rewrite Heq. reflexivity.
  - apply leibniz_equiv, Heq.
Qed.

Lemma score_of_positive (q_tokens tokens : gset string) :
  (0 < score_of q_tokens tokens)%Q <-> q_tokens ∩ tokens <> ∅.
Proof.
  unfold score_of, Qlt. cbn [Qnum Qden]. rewrite <- gset_size_nonzero.
  split; intros H; lia.
Qed.

(** X10.  A score lies between 0 and 1; it is positive exactly when the
    query shares a token with the entry, and it is 1 when the query holds
    every token of the entry. *)
Theorem score_between_0_and_1 (query : option string) (x : faq_text) :
  (0 <= entry_score query x)%Q
  /\ (entry_score query x <= 1)%Q
  /\ ((0 < entry_score query x)%Q <-> token_set query ∩ entry_tokens x <> ∅)
  /\ (entry_tokens x <> ∅ -> entry_tokens x ⊆ token_set query ->
      (entry_score query x == 1)%Q).
Proof.
  unfold entry_score. split; [|split; [|split]].
  - unfold score_of, Qle. cbn [Qnum Qden]. lia.
  - unfold score_of, Qle. cbn [Qnum Qden]. rewrite score_of_den.
    pose proof (subseteq_size (token_set query ∩ entry_tokens x) (entry_tokens x)
                  (intersection_subseteq_r _ _)). lia.
  - apply score_of_positive.
  - intros Hne Hsub. unfold score_of, Qeq. cbn [Qnum Qden]. rewrite score_of_den.
    replace (token_set query ∩ entry_tokens x) with (entry_tokens x).
    + apply gset_size_nonzero in Hne. lia.
    + rewrite (comm_L (∩)). symmetry. apply subseteq_intersection_1_L, Hsub.
Qed.

Lemma score_between_0_and_1_witness :
  (entry_score (Some "reset my password go to settings account please")
               (FaqText "reset password" "Go to settings" "account") == 1)%Q.
Proof.
  apply (score_between_0_and_1 (Some "reset my password go to settings account please")
           (FaqText "reset password" "Go to settings" "account")).
  - intros H. apply (f_equal size) in H. vm_compute in H. discriminate H.
  - apply elem_of_subseteq. intros w Hw.
    apply (bool_decide_unpack _). revert w Hw. apply (bool_decide_unpack _).
    vm_compute. reflexivity.
Defined.

Lemma for_each_raise {A B : Type} (f : A -> result B) (l : list A) (e : exn) :
  for_each f l = Raise e -> exists a, a ∈ l /\ f a = Raise e.
Proof.
  induction l as [|a l IH]; [discriminate|]. cbn [for_each].
  destruct (f a) as [e'|b] eqn:Hfa.
  - intros H. injection H as ->. exists a. split; [apply elem_of_cons; left; reflexivity | exact Hfa].
  - cbn [mbind result_bind]. destruct (for_each f l) as [e'|bs]; [|discriminate].
    cbn [mbind result_bind]. intros H. injection H as ->.
    destruct (IH eq_refl) as (a' & Ha' & Hfa'). exists a'.
    split; [apply elem_of_cons; right; exact Ha' | exact Hfa'].
Qed.

Lemma for_each_return_all {A B : Type} (f : A -> result B) (l : list A) (ys : list B) :
  for_each f l = Return ys -> Forall (fun a => exists b, f a = Return b) l.
Proof.
  intros H. apply Forall_forall. intros a Ha.
  apply list_elem_of_lookup in Ha as [i Hi].
  destruct (proj2 (for_each_lookup f l ys H i) a Hi) as (y & _ & Hy). eauto.
Qed.

Lemma join_tags_raise (t : json) (e : exn) : join_tags t = Raise e -> e = TypeError.
Proof.
  destruct t; cbn [join_tags]; try discriminate; try (intros H; injection H as <-; reflexivity).
  destruct (for_each _ items) as [e'|ss] eqn:Hfe; cbn [mbind result_bind]; [|discriminate].
  intros H. injection H as ->.
  destruct (for_each_raise _ _ _ Hfe) as (v & _ & Hv).
  destruct v; try discriminate; injection Hv as <-; reflexivity.
Qed.

Lemma join_tags_joinable (t : json) : (exists s, join_tags t = Return s) <-> joinable t.
Proof.
  destruct t; cbn [join_tags joinable]; try (split; [intros [s H]; discriminate H | contradiction]);
    try solve [split; [auto | eauto]].
  split.
  - intros [s H].
    destruct (for_each _ items) as [e'|ss] eqn:Hfe; [discriminate H|].
    apply for_each_return_all in Hfe. eapply Forall_impl; [exact Hfe|].
    cbn beta. intros v [b Hb]. destruct v; try discriminate Hb. eauto.
  - intros Hall.
    destruct (for_each_total
                (fun v => match v with JStr s => Return s | _ => Raise TypeError end) items)
      as [ss Hss].
    + eapply Forall_impl; [exact Hall|]. cbn beta. intros v [s ->]. eauto.
    + rewrite Hss. cbn [mbind result_bind]. eauto.
Qed.

Lemma faq_strings_raise (f : faq) (e : exn) : faq_strings f = Raise e -> e = TypeError.
Proof.
  unfold faq_strings.
  destruct (question f); try (intros H; injection H as <-; reflexivity).
  destruct (answer f); try (intros H; injection H as <-; reflexivity).
  destruct (join_tags (tags f)) as [e'|t] eqn:Ht; cbn [mbind result_bind]; [|discriminate].
  intros H. injection H as ->. apply (join_tags_raise _ _ Ht).
Qed.

Lemma faq_strings_string_fields (f : faq) :
  (exists x, faq_strings f = Return x) <-> string_fields f.
Proof.
  unfold faq_strings, string_fields. split.
  - intros [x H].
    destruct (question f); try discriminate H.
    destruct (answer f); try discriminate H.
    destruct (join_tags (tags f)) as [e|t] eqn:Ht; [discriminate H|].
    split; [eauto|]. split; [eauto|]. apply join_tags_joinable. eauto.
  - intros ([q ->] & [a ->] & [t Ht]%join_tags_joinable). rewrite Ht.
    cbn [mbind result_bind]. eauto.
Qed.

Lemma faq_strings_answer (f : faq) (x : faq_text) :
  faq_strings f = Return x -> answer f = JStr (answer_text x).
Proof.
  unfold faq_strings. destruct (question f); try discriminate.
  destruct (answer f); try discriminate.
  destruct (join_tags (tags f)); [discriminate|].
  cbn [mbind result_bind]. intros H. injection H as <-. reflexivity.
Qed.

Lemma scan_step_cases (q_tokens : gset string) (b : best) (f : faq) :
  (exists e, faq_strings f = Raise e /\ scan_step q_tokens b f = Raise e)
  \/ (exists x, faq_strings f = Return x
                /\ scan_step q_tokens b f = Return (scan_text q_tokens b x)).
Proof.
  unfold scan_step, scan_text, entry_tokens.
  destruct (faq_strings f) as [e|x]; [left; eauto|]. right. exists x.
  split; [reflexivity|]. cbn [mbind result_bind].
  destruct (decide (token_set (Some (combined x)) = ∅)); [reflexivity|].
  destruct (_ ?= _)%Q; reflexivity.
Qed.

Lemma scan_return_typed (q_tokens : gset string) (faqs : list faq) (b b' : best) :
  scan q_tokens b faqs = Return b' -> exists texts, for_each faq_strings faqs = Return texts.
Proof.
  revert b. induction faqs as [|f faqs IH]; intros b H; [exists []; reflexivity|].
  cbn [scan] in H.
  destruct (scan_step_cases q_tokens b f) as [(e & _ & Hs) | (x & Hx & Hs)];
    rewrite Hs in H; cbn [mbind result_bind] in H; [discriminate|].
  destruct (IH _ H) as [texts Ht]. exists (x :: texts).
  cbn [for_each]. rewrite Hx, Ht. reflexivity.
Qed.

Lemma scan_raise (q_tokens : gset string) (faqs : list faq) (b : best) (e : exn) :
  scan q_tokens b faqs = Raise e -> exists f, f ∈ faqs /\ faq_strings f = Raise e.
Proof.
  revert b. induction faqs as [|f faqs IH]; intros b H; [discriminate|].
  cbn [scan] in H.
  destruct (scan_step_cases q_tokens b f) as [(e' & He' & Hs) | (x & Hx & Hs)];
    rewrite Hs in H; cbn [mbind result_bind] in H.
  - injection H as ->. exists f. split; [apply elem_of_cons; left; reflexivity | exact He'].
  - destruct (IH _ H) as (g & Hg & Hge). exists g.
    split; [apply elem_of_cons; right; exact Hg | exact Hge].
Qed.

(** What a match tells about the list, whatever the threshold. *)
Lemma find_some_entry (round3 : Q -> Q) (FAQ_LIST : list faq) (query : option string)
    (threshold : Q) (a : string) (sc : Q) :
  find_relevant_faq round3 FAQ_LIST query threshold = Return (Some a, sc) ->
  exists i f x,
    FAQ_LIST !! i = Some f /\ faq_strings f = Return x /\ answer f = JStr a
    /\ token_set query ∩ entry_tokens x <> ∅
    /\ (threshold <= entry_score query x)%Q
    /\ sc = round3 (entry_score query x).
Proof.
  unfold find_relevant_faq.
  destruct (decide (token_set query = ∅)); [discriminate|].
  destruct (scan (token_set query) (Best 0 None) FAQ_LIST) as [e|b] eqn:Hscan;
    cbn [mbind result_bind]; [discriminate|].
  destruct (scan_return_typed _ _ _ _ Hscan) as [texts Htexts].
  rewrite (scan_typed _ _ _ _ Htexts) in Hscan. injection Hscan as <-.
  pose proof (scanned_foldl (token_set query) texts [] _ (scanned_start _)) as [_ Hbest].
  rewrite app_nil_l in Hbest.
  destruct (best_faq (foldl (scan_text (token_set query)) (Best 0 None) texts)) as [x|];
    [|discriminate].
  destruct Hbest as (i & Hi & _ & Hs & Hpos & _).
  destruct (Qle_bool threshold _) eqn:Hle; [|discriminate].
  intros H. injection H as <- <-.
  destruct (proj1 (for_each_lookup faq_strings FAQ_LIST texts Htexts i) x Hi) as (f & Hf & Hfx).
  exists i, f, x. split; [exact Hf|]. split; [exact Hfx|].
  split; [apply faq_strings_answer, Hfx|].
  unfold entry_score. rewrite <- Hs.
  split; [apply score_of_positive; rewrite <- Hs; exact Hpos|].
  split; [apply Qle_bool_iff, Hle | reflexivity].
Qed.

Lemma find_none_zero (round3 : Q -> Q) (FAQ_LIST : list faq) (query : option string)
    (threshold sc : Q) :
  find_relevant_faq round3 FAQ_LIST query threshold = Return (None, sc) -> sc = 0%Q.
Proof.
  unfold find_relevant_faq.
  destruct (decide (token_set query = ∅)); [intros H; injection H as <-; reflexivity|].
  destruct (scan _ _ FAQ_LIST) as [e|b]; cbn [mbind result_bind]; [discriminate|].
  destruct (best_faq b); [|intros H; injection H as <-; reflexivity].
  destruct (Qle_bool threshold (best_score b)); [discriminate|].
  intros H. injection H as <-. reflexivity.
Qed.

Lemma find_returns_when_typed (round3 : Q -> Q) (FAQ_LIST : list faq)
    (query : option string) (threshold : Q) :
  Forall string_fields FAQ_LIST ->
  exists res, find_relevant_faq round3 FAQ_LIST query threshold = Return res.
Proof.
  intros Hall. unfold find_relevant_faq.
  destruct (decide (token_set query = ∅)); [eauto|].
  destruct (for_each_total faq_strings FAQ_LIST) as [texts Ht].
  { eapply Forall_impl; [exact Hall|]. intros f Hf. apply faq_strings_string_fields, Hf. }
  rewrite (scan_typed _ _ _ _ Ht). cbn [mbind result_bind].
  destruct (best_faq _); [destruct (Qle_bool _ _)|]; eauto.
Qed.

(** X11.  Whatever the threshold, a match is the answer of an entry of the
    list that shares at least one token with the query, so a zero score
    never matches; and when no entry shares a token with the query the
    result is none with score 0. *)
Theorem match_shares_a_token (round3 : Q -> Q) (FAQ_LIST : list faq)
    (query : option string) (threshold : Q) :
  (forall a sc,
      find_relevant_faq round3 FAQ_LIST query threshold = Return (Some a, sc) ->
      exists i f x,
        FAQ_LIST !! i = Some f /\ faq_strings f = Return x /\ answer f = JStr a
        /\ token_set query ∩ entry_tokens x <> ∅
        /\ (threshold <= entry_score query x)%Q
        /\ sc = round3 (entry_score query x))
  /\ (Forall string_fields FAQ_LIST ->
      (forall f x, f ∈ FAQ_LIST -> faq_strings f = Return x ->
                   token_set query ∩ entry_tokens x = ∅) ->
      find_relevant_faq round3 FAQ_LIST query threshold = Return (None, 0%Q)).
Proof.
  split; [intros a sc; apply find_some_entry|].
  intros Hall Hnone.
  destruct (find_returns_when_typed round3 FAQ_LIST query threshold Hall) as [[[a|] sc] Hres].
  - destruct (find_some_entry _ _ _ _ _ _ Hres) as (i & f & x & Hf & Hx & _ & Hne & _).
    exfalso. apply Hne, (Hnone f x); [|exact Hx].
    apply list_elem_of_lookup. eauto.
  - rewrite Hres. rewrite (find_none_zero _ _ _ _ _ Hres). reflexivity.
Qed.

Lemma match_shares_a_token_witness :
  find_relevant_faq round_half_even sample_faqs (Some "where is my parcel") (-1 # 1)
  = Return (None, 0%Q).
Proof.
  apply (match_shares_a_token round_half_even sample_faqs (Some "where is my parcel") (-1 # 1)).
  - repeat constructor; cbn; eauto.
  - intros f x Hf Hx. apply list_elem_of_singleton in Hf as ->.
    injection Hx as <-. apply (bool_decide_unpack _). vm_compute. reflexivity.
Defined.

Lemma branch_of_faq_matched (round3 : Q -> Q) (FAQ_LIST : list faq) (req : request)
    (sid q a : string) (sc : Q) :
  branch_of round3 FAQ_LIST req = FaqMatched sid q a sc ->
  find_relevant_faq round3 FAQ_LIST (Some q) default_threshold = Return (Some a, sc)
  /\ a <> "".
Proof.
  unfold branch_of. destruct (req_query req) as [q'|]; [|discriminate].
  destruct (decide (q' = "")); [discriminate|].
  destruct (should_escalate (Some q')); [discriminate|].
  destruct (find_relevant_faq round3 FAQ_LIST (Some q') default_threshold)
    as [e|[[a'|] sc']] eqn:Hfind; try discriminate.
  destruct (decide (a' = "")) as [|Hne]; [discriminate|].
  intros H. injection H as _ <- <- <-. split; [exact Hfind | exact Hne].
Qed.

(** X12.  A reply whose source is "faq" quotes the list: its response is
    the answer of an entry of [FAQ_LIST], it is not empty, and that entry
    shares a token with the query and scores at least the default
    threshold. *)
Theorem faq_reply_quotes_an_entry (round3 : Q -> Q) (FAQ_LIST : list faq)
    (MODEL_FALLBACKS : list string)
    (create : nat -> string -> list message -> call_result)
    (db : database) (req : request) :
  let h := chat round3 FAQ_LIST MODEL_FALLBACKS create db req in
  body (reply h) !! "source" = Some (VStr "faq") ->
  exists q a i f x,
    req_query req = Some q
    /\ body (reply h) !! "response" = Some (VStr a) /\ a <> ""
    /\ FAQ_LIST !! i = Some f /\ answer f = JStr a /\ faq_strings f = Return x
    /\ token_set (Some q) ∩ entry_tokens x <> ∅
    /\ (default_threshold <= entry_score (Some q) x)%Q.
Proof.
  intros h. subst h.
  pose proof (branch_of_query round3 FAQ_LIST req) as Hq.
  rewrite chat_by_branch.
  destruct (branch_of round3 FAQ_LIST req) as [|s q|e|s q a sc|s q] eqn:Hb;
    cbn [reply body]; try (intros H; vm_compute in H; discriminate H).
  - intros _. destruct Hq as (Hq & _ & _).
    destruct (branch_of_faq_matched _ _ _ _ _ _ _ Hb) as [Hfind Hne].
    destruct (find_some_entry _ _ _ _ _ _ Hfind) as (i & f & x & Hf & Hx & Ha & Hsh & Hle & _).
    exists q, a, i, f, x. repeat split; auto.
  - unfold generate.
    destruct (try_models_cases create db s q (prompt db s q) MODEL_FALLBACKS 0 None [])
      as [(m & final & action & _ & _ & Hr & _) | (e & Hr & _)];
      cbn zeta in Hr; rewrite Hr; cbn [body].
    + rewrite outcome_body_source. intros H. vm_compute in H. discriminate H.
    + intros H. vm_compute in H. discriminate H.
Qed.

Lemma faq_reply_quotes_an_entry_witness :
  exists a, body (reply (chat round_half_even sample_faqs two_models dead_backend init_db
                              password_request)) !! "response" = Some (VStr a)
            /\ a <> "".
Proof.
  destruct (faq_reply_quotes_an_entry round_half_even sample_faqs two_models dead_backend
              init_db password_request)
    as (q & a & i & f & x & _ & Hr & Hne & _).
  - vm_compute. reflexivity.
  - exists a. auto.
Defined.

(** When the matcher raises. *)
Lemma find_raise_iff (round3 : Q -> Q) (FAQ_LIST : list faq)
    (query : option string) (threshold : Q) (e : exn) :
  find_relevant_faq round3 FAQ_LIST query threshold = Raise e
  <-> e = TypeError /\ token_set query <> ∅
      /\ exists f, f ∈ FAQ_LIST /\ ~ string_fields f.
Proof.
  split.
  - unfold find_relevant_faq.
    destruct (decide (token_set query = ∅)) as [|Hne]; [discriminate|].
    destruct (scan (token_set query) (Best 0 None) FAQ_LIST) as [e'|b] eqn:Hscan;
      cbn [mbind result_bind].
    + intros H. injection H as ->.
      destruct (scan_raise _ _ _ _ Hscan) as (f & Hf & Hfe).
      split; [apply (faq_strings_raise _ _ Hfe)|]. split; [exact Hne|].
      exists f. split; [exact Hf|].
      intros [x Hx]%faq_strings_string_fields. rewrite Hx in Hfe. discriminate.
    + destruct (best_faq b); [destruct (Qle_bool _ _)|]; discriminate.
  - intros (-> & Hne & f & Hf & Hno). unfold find_relevant_faq.
    destruct (decide (token_set query = ∅)); [contradiction|].
    destruct (scan (token_set query) (Best 0 None) FAQ_LIST) as [e'|b] eqn:Hscan;
      cbn [mbind result_bind].
    + destruct (scan_raise _ _ _ _ Hscan) as (g & _ & Hge).
      rewrite (faq_strings_raise _ _ Hge). reflexivity.
    + exfalso. apply Hno.
      destruct (scan_return_typed _ _ _ _ Hscan) as [texts Ht].
      apply for_each_return_all in Ht. rewrite Forall_forall in Ht.
      apply faq_strings_string_fields, Ht, Hf.
Qed.

(** X13.  [find_relevant_faq] raises exactly when the query has a token and
    some entry of the list has a question or an answer that is not a string,
    or tags that [" ".join] rejects; the exception is a TypeError.  A query
    without tokens returns none even on such a list. *)
Theorem matcher_raises_iff_untyped_entry (round3 : Q -> Q) (FAQ_LIST : list faq)
    (query : option string) (threshold : Q) (e : exn) :
  (find_relevant_faq round3 FAQ_LIST query threshold = Raise e
   <-> e = TypeError /\ token_set query <> ∅
       /\ exists f, f ∈ FAQ_LIST /\ ~ string_fields f)
  /\ (token_set query = ∅ ->
      find_relevant_faq round3 FAQ_LIST query threshold = Return (None, 0%Q)).
Proof.
  split; [apply find_raise_iff|].
  intros H. unfold find_relevant_faq.
  destruct (decide (token_set query = ∅)); [reflexivity | contradiction].
Qed.

(** X14.  With an entry that is not made of strings in the list, [chat]
    answers every query that has a token and no escalation keyword with
    status 500 "Internal server error", writes nothing and logs one error;
    a query with a keyword is still escalated. *)
Theorem untyped_entry_faults_chat (round3 : Q -> Q) (FAQ_LIST : list faq)
    (MODEL_FALLBACKS : list string)
    (create : nat -> string -> list message -> call_result)
    (db : database) (sid : option string) (q : string) (f : faq) :
  f ∈ FAQ_LIST -> ~ string_fields f ->
  token_set (Some q) <> ∅ ->
  should_escalate (Some q) = false ->
  chat round3 FAQ_LIST MODEL_FALLBACKS create db (Request sid (Some q))
  = Handled (Response 500 (<["error" := VStr "Internal server error"]>
                            (<["detail" := VExn TypeError]> ∅)))
            db [Log ERROR "Unhandled error in /chat"].
Proof.
  intros Hf Hno Htok Hesc.
  assert (Hraise : find_relevant_faq round3 FAQ_LIST (Some q) default_threshold
                   = Raise TypeError).
  { apply find_raise_iff. eauto. }
  unfold chat. cbn [req_query req_session_id].
  destruct (decide (q = "")) as [->|_]; [exfalso; apply Htok; reflexivity|].
  rewrite Hesc, Hraise. reflexivity.
Qed.

Lemma matcher_raises_iff_untyped_entry_witness :
  find_relevant_faq round_half_even untyped_faqs (Some "hello there") default_threshold
  = Raise TypeError
  /\ find_relevant_faq round_half_even untyped_faqs (Some "?!") default_threshold
     = Return (None, 0%Q).
Proof.
  split.
  - apply (proj1 (matcher_raises_iff_untyped_entry round_half_even untyped_faqs
                    (Some "hello there") default_threshold TypeError)).
    split; [reflexivity|]. split.
    + intros H. apply (f_equal size) in H. vm_compute in H. discriminate H.
    + exists (Faq (JStr "refund period") (JNum 30) (JArr [])).
      split; [apply elem_of_cons; right; apply list_elem_of_here|].
      intros (_ & [a Ha] & _). discriminate Ha.
  - apply (proj2 (matcher_raises_iff_untyped_entry round_half_even untyped_faqs
                    (Some "?!") default_threshold TypeError)).
    reflexivity.
Defined.

Lemma untyped_entry_faults_chat_witness :
  status (reply (chat round_half_even untyped_faqs two_models (flaky_backend "Hello!")
                      init_db greeting_request)) = 500%nat.
Proof.
  unfold greeting_request.
  rewrite (untyped_entry_faults_chat round_half_even untyped_faqs two_models
             (flaky_backend "Hello!") init_db None "hello there"
             (Faq (JStr "refund period") (JNum 30) (JArr []))).
  - reflexivity.
  - apply elem_of_cons; right; apply list_elem_of_here.
  - intros (_ & [a Ha] & _). discriminate Ha.
  - intros H. apply (f_equal size) in H. vm_compute in H. discriminate H.
  - vm_compute. reflexivity.
Defined.

(** ** From the file to the matcher *)

Lemma entry_of_object_suits (members : list (string * json)) :
  object_suits members -> string_fields (entry_of_object members).
Proof.
  intros (Hq & Ha & Ht). unfold string_fields, entry_of_object. cbn [question answer tags].
  split; [|split].
  - destruct (member "question" members) as [v|]; [apply Hq; reflexivity | cbn; eauto].
  - destruct (member "answer" members) as [v|]; [apply Ha; reflexivity | cbn; eauto].
  - destruct (member "tags" members) as [v|]; [|constructor].
    destruct (Ht v eq_refl) as [Hf|Hj].
    + rewrite Hf. constructor.
    + destruct (truthy v); [exact Hj | constructor].
Qed.

(** X15.  Entries loaded from a well-typed file never make the matcher
    raise: this holds for a mapping whose values are strings, and for a list
    of objects whose question and answer, where present, are strings and
    whose tags, where present, are falsy (null, an empty list) or a list of
    strings. *)
Theorem loaded_entries_suit_matcher :
  (forall members,
      Forall (fun kv => exists s, snd kv = JStr s) members ->
      exists faqs,
        load_faqs (ReadReturns (JObj members)) = (Return faqs, [])
        /\ length faqs = length members
        /\ Forall string_fields faqs
        /\ forall round3 query threshold,
             exists res, find_relevant_faq round3 faqs query threshold = Return res)
  /\ (forall objects,
      Forall object_suits objects ->
      exists faqs,
        load_faqs (ReadReturns (JArr (map JObj objects))) = (Return faqs, [])
        /\ length faqs = length objects
        /\ Forall string_fields faqs
        /\ forall round3 query threshold,
             exists res, find_relevant_faq round3 faqs query threshold = Return res).
Proof.
  split.
  - intros members Hall. eexists. split; [reflexivity|]. split; [apply length_map|].
    assert (Hs : Forall string_fields (map faq_of_pair members)).
    { apply Forall_map. eapply Forall_impl; [exact Hall|].
      intros [k v] [s Hs]. cbn [snd] in Hs. subst v.
      unfold string_fields, faq_of_pair. cbn. split; [eauto|]. split; [eauto | constructor]. }
    split; [exact Hs|]. intros round3 query threshold.
    apply find_returns_when_typed, Hs.
  - intros objects Hall. exists (map entry_of_object objects).
    split; [cbn [load_faqs]; rewrite for_each_objects; reflexivity|].
    split; [apply length_map|].
    assert (Hs : Forall string_fields (map entry_of_object objects)).
    { apply Forall_map. eapply Forall_impl; [exact Hall|]. apply entry_of_object_suits. }
    split; [exact Hs|]. intros round3 query threshold.
    apply find_returns_when_typed, Hs.
Qed.

Lemma loaded_entries_suit_matcher_witness :
  exists faqs,
    load_faqs (ReadReturns (JArr (map JObj [[("question", JStr "reset password");
                                             ("answer", JStr "Go to settings");
                                             ("tags", JNull)]])))
    = (Return faqs, [])
    /\ length faqs = 1%nat.
Proof.
  destruct (proj2 loaded_entries_suit_matcher
              [[("question", JStr "reset password"); ("answer", JStr "Go to settings");
                ("tags", JNull)]])
    as (faqs & H1 & H2 & _).
  - apply List.Forall_cons; [|apply List.Forall_nil].
    split; [|split]; intros v Hv; vm_compute in Hv; injection Hv as <-;
      [eexists; reflexivity | eexists; reflexivity | left; reflexivity].
  - exists faqs. auto.
Defined.



(** ** The backend and the shape of replies *)




(** X18.  Success and failure replies never look alike: a reply has status
    200, a "response" field and no "error" field, or it has status 400 or
    500, an "error" field and no "response" field. *)
Theorem reply_is_success_or_error (round3 : Q -> Q) (FAQ_LIST : list faq)
    (MODEL_FALLBACKS : list string)
    (create : nat -> string -> list message -> call_result)
    (db : database) (req : request) :
  let h := chat round3 FAQ_LIST MODEL_FALLBACKS create db req in
  (status (reply h) = 200%nat
   /\ is_Some (body (reply h) !! "response")
   /\ body (reply h) !! "error" = None)
  \/ ((status (reply h) = 400%nat \/ status (reply h) = 500%nat)
      /\ body (reply h) !! "response" = None
      /\ is_Some (body (reply h) !! "error")).
Proof.
  intros h. subst h. rewrite chat_by_branch.
  destruct (branch_of round3 FAQ_LIST req) as [|s q|e|s q a sc|s q];
    cbn [reply body status].
  - right. split; [auto|]. split; [reflexivity | eexists; reflexivity].
  - left. split; [reflexivity|]. split; [eexists; reflexivity | reflexivity].
  - right. split; [auto|]. split; [reflexivity | eexists; reflexivity].
  - left. split; [reflexivity|]. split; [eexists; reflexivity | reflexivity].
  - unfold generate.
    destruct (try_models_cases create db s q (prompt db s q) MODEL_FALLBACKS 0 None [])
      as [(m & final & action & _ & _ & Hr & _) | (e & Hr & _)];
      cbn zeta in Hr; rewrite Hr; cbn [status body].
    + left. split; [reflexivity|]. split; [eexists; reflexivity | reflexivity].
    + right. split; [auto|]. split; [reflexivity | eexists; reflexivity].
Qed.

Lemma classify_reply_no_sentinel (bot_reply : string) :
  Text.contains "ESCALATE_TO_AGENT" (fst (classify_reply bot_reply)) = false.
Proof.
  unfold classify_reply. destruct (Text.contains "ESCALATE_TO_AGENT" bot_reply) eqn:H;
    cbn [fst]; [vm_compute; reflexivity | exact H].
Qed.

Lemma try_models_no_sentinel (create : nat -> string -> list message -> call_result)
    (db : database) (sid q : string) (msgs : list message) (models : list string)
    (n : nat) (last_error : option string) (warnings : list log_record) (a : string) :
  body (reply (try_models create db sid q msgs models n last_error warnings)) !! "response"
  = Some (VStr a) ->
  Text.contains "ESCALATE_TO_AGENT" a = false.
Proof.
  revert n last_error warnings.
  induction models as [|m models IH]; intros n last_error warnings.
  - cbn [try_models reply body]. intros H. vm_compute in H. discriminate H.
  - destruct (create n m msgs) as [e|resp] eqn:Hc.
    + cbn [try_models]. rewrite Hc. apply IH.
    + rewrite (try_models_success create db sid q msgs m models n _ _ resp Hc).
      cbn [reply body]. rewrite outcome_body_response. intros H. injection H as <-.
      apply classify_reply_no_sentinel.
Qed.

(** X19.  The sentinel never reaches the user from the rule or the model:
    in a reply whose source is not "faq", the response does not contain
    ESCALATE_TO_AGENT. *)
Theorem sentinel_never_leaks (round3 : Q -> Q) (FAQ_LIST : list faq)
    (MODEL_FALLBACKS : list string)
    (create : nat -> string -> list message -> call_result)
    (db : database) (req : request) (a : string) :
  let h := chat round3 FAQ_LIST MODEL_FALLBACKS create db req in
  body (reply h) !! "response" = Some (VStr a) ->
  body (reply h) !! "source" <> Some (VStr "faq") ->
  Text.contains "ESCALATE_TO_AGENT" a = false.
Proof.
  intros h. subst h. rewrite chat_by_branch.
  destruct (branch_of round3 FAQ_LIST req) as [|s q|e|s q x sc|s q]; cbn [reply body].
  - intros H. vm_compute in H. discriminate H.
  - intros H _. vm_compute in H. injection H as <-. vm_compute. reflexivity.
  - intros H. vm_compute in H. discriminate H.
  - intros _ H. exfalso. apply H. reflexivity.
  - intros H _. unfold generate in H. apply (try_models_no_sentinel _ _ _ _ _ _ _ _ _ _ H).
Qed.

Lemma sentinel_never_leaks_witness :
  Text.contains "ESCALATE_TO_AGENT" handoff_message = false.
Proof.
  apply (sentinel_never_leaks round_half_even sample_faqs two_models
           (flaky_backend "please ESCALATE_TO_AGENT now") init_db greeting_request
           handoff_message).
  - vm_compute. reflexivity.
  - vm_compute. discriminate.
Defined.

(** ** Reply extraction *)

Lemma lstrip_starts_clean (s : string) : starts_clean (Text.lstrip s).
Proof.
  induction s as [|c s IH]; [exact I|]. cbn [Text.lstrip].
  destruct (Text.isspace c) eqn:Hc; [exact IH | exact Hc].
Qed.

Lemma lstrip_clean (s : string) : starts_clean s -> Text.lstrip s = s.
Proof. destruct s as [|c s]; [reflexivity|]. cbn [starts_clean Text.lstrip]. intros ->. reflexivity. Qed.

Lemma rstrip_cons (c : ascii) (r : string) :
  Text.rstrip (String c r)
  = match Text.rstrip r with
    | EmptyString => if Text.isspace c then EmptyString else String c EmptyString
    | String d r' => String c (String d r')
    end.
Proof. cbn [Text.rstrip]. destruct (Text.rstrip r); reflexivity. Qed.

Lemma rstrip_starts_clean (s : string) : starts_clean s -> starts_clean (Text.rstrip s).
Proof.
  destruct s as [|c s]; [intros _; exact I|]. cbn [starts_clean]. intros Hc.
  rewrite rstrip_cons. destruct (Text.rstrip s); [rewrite Hc|]; exact Hc.
Qed.

Lemma rstrip_idempotent (s : string) : Text.rstrip (Text.rstrip s) = Text.rstrip s.
Proof.
  induction s as [|c s IH]; [reflexivity|]. rewrite rstrip_cons.
  destruct (Text.rstrip s) as [|d r'] eqn:Hr.
  - destruct (Text.isspace c) eqn:Hc; [reflexivity|].
    rewrite rstrip_cons. cbn [Text.rstrip]. rewrite Hc. reflexivity.
  - rewrite rstrip_cons, IH. reflexivity.
Qed.

Lemma strip_idempotent (s : string) : Text.strip (Text.strip s) = Text.strip s.
Proof.
  unfold Text.strip.
  rewrite (lstrip_clean (Text.rstrip (Text.lstrip s)))
    by apply rstrip_starts_clean, lstrip_starts_clean.
  apply rstrip_idempotent.
Qed.

Lemma take_length (n : nat) (s : string) : (String.length (Text.take n s) <= n)%nat.
Proof.
  unfold Text.take. revert s. induction n as [|n IH]; intros [|c s]; cbn; try lia.
  specialize (IH s). lia.
Qed.

Lemma take_prefix (n : nat) (s : string) : String.prefix (Text.take n s) s = true.
Proof.
  unfold Text.take. revert s. induction n as [|n IH]; intros [|c s]; cbn; try reflexivity.
  destruct (Ascii.ascii_dec c c); [apply IH | contradiction].
Qed.

(** X20.  The reply extracted from a completion is the stripped message
    content when there is one, else the stripped choice text when there is
    one, and in both cases stripping it again changes nothing; with neither,
    it is the first characters of [str(resp)], at most 1000 of them. *)
Theorem extract_reply_is_stripped_or_bounded (resp : completion) :
  (forall c, message_content resp = Some c ->
             extract_reply resp = Text.strip c
             /\ Text.strip (extract_reply resp) = extract_reply resp)
  /\ (forall t, message_content resp = None -> choice_text resp = Some t ->
                extract_reply resp = Text.strip t
                /\ Text.strip (extract_reply resp) = extract_reply resp)
  /\ (message_content resp = None -> choice_text resp = None ->
      (String.length (extract_reply resp) <= 1000)%nat
      /\ String.prefix (extract_reply resp) (repr resp) = true).
Proof.
  unfold extract_reply. split; [|split].
  - intros c ->. split; [reflexivity | apply strip_idempotent].
  - intros t -> ->. split; [reflexivity | apply strip_idempotent].
  - intros -> ->. split; [apply take_length | apply take_prefix].
Qed.

Lemma extract_reply_is_stripped_or_bounded_witness :
  extract_reply (Completion (Some "  Hello!  ") (Some "other") "raw") = "Hello!".
Proof.
  rewrite (proj1 (proj1 (extract_reply_is_stripped_or_bounded
                           (Completion (Some "  Hello!  ") (Some "other") "raw"))
                    "  Hello!  " eq_refl)).
  reflexivity.
Defined.

(** ** When the loader raises *)

Lemma faq_of_item_raise (item : json) (e : exn) :
  faq_of_item item = Raise e -> e = AttributeError /\ forall members, item <> JObj members.
Proof.
  destruct item; cbn; try (intros H; injection H as <-; split; [reflexivity | discriminate]).
  unfold faq_of_item, item_get. cbn [mbind result_bind]. discriminate.
Qed.

(** X21.  [load_faqs] lets an exception escape exactly when the file parses
    to a list that holds an element which is not an object (a number, a
    string, null, a nested list); the exception is an AttributeError.  Every
    other file, readable or not, yields a list of entries. *)
Theorem load_faqs_raises_iff_non_object (f : file_read) (e : exn) :
  fst (load_faqs f) = Raise e
  <-> e = AttributeError
      /\ exists items i v,
           f = ReadReturns (JArr items) /\ items !! i = Some v
           /\ forall members, v <> JObj members.
Proof.
  split.
  - destruct f as [msg|data]; [discriminate|].
    destruct data; cbn [load_faqs fst]; try discriminate.
    intros H. destruct (for_each_raise _ _ _ H) as (v & Hv & Hfv).
    destruct (faq_of_item_raise _ _ Hfv) as [-> Hno].
    split; [reflexivity|]. apply list_elem_of_lookup in Hv as [i Hi].
    exists items, i, v. auto.
  - intros (-> & items & i & v & -> & Hi & Hno).
    destruct (load_faqs_item_not_object items i v Hi Hno) as [e He].
    rewrite He. f_equal. cbn [load_faqs fst] in He.
    destruct (for_each_raise _ _ _ He) as (w & _ & Hw).
    apply (faq_of_item_raise _ _ Hw).
Qed.

Lemma load_faqs_raises_iff_non_object_witness :
  fst (load_faqs (ReadReturns (JArr [JObj [("question", JStr "q1")]; JStr "oops"])))
  = Raise AttributeError.
Proof.
  apply (proj2 (load_faqs_raises_iff_non_object
                  (ReadReturns (JArr [JObj [("question", JStr "q1")]; JStr "oops"]))
                  AttributeError)).
  split; [reflexivity|].
  exists [JObj [("question", JStr "q1")]; JStr "oops"], 1%nat, (JStr "oops").
  split; [reflexivity|]. split; [reflexivity | discriminate].
Defined.

(** ** More on tokens, keywords and thresholds *)

Lemma token_char_alnum_lower (c : ascii) :
  token_char c = true -> Text.isalnum c = true /\ Text.lower_char c = c.
Proof.
  unfold token_char. intros [Ha Hl]%andb_prop. split; [exact Ha|].
  apply Ascii.eqb_eq, Hl.
Qed.

Lemma sall_token_char_lower (w : string) : sall token_char w = true -> Text.lower w = w.
Proof.
  unfold Text.lower. induction w as [|c w IH]; [reflexivity|]. cbn [sall Text.smap].
  intros [Hc Hw]%andb_prop. rewrite (IH Hw), (proj2 (token_char_alnum_lower c Hc)).
  reflexivity.
Qed.

(** X22.  A token holds only alphanumeric characters, is already in lower
    case, and is a fixed point of the tokenizer: tokenizing a token gives
    that token alone. *)
Theorem tokens_are_clean_words (text : option string) :
  Forall (fun w => sall Text.isalnum w = true
                   /\ Text.lower w = w
                   /\ tokenize (Some w) = [w])
         (tokenize text).
Proof.
  pose proof (tokenize_token_words text) as Hwords.
  apply Forall_forall. intros w Hw.
  rewrite Forall_forall in Hwords. destruct (Hwords w Hw) as [Hne Hall].
  split; [|split].
  - eapply sall_impl; [|exact Hall]. intros c Hc. apply (token_char_alnum_lower c Hc).
  - apply sall_token_char_lower, Hall.
  - rewrite tokenize_some, (smap_normal_token_word w Hall).
    change w with (Text.join " " [w]) at 1.
    rewrite split_join by (repeat constructor; assumption).
    apply filter_all. repeat constructor.
    rewrite tokenize_unfold in Hw. apply list_elem_of_filter in Hw as [Hlong _].
    exact Hlong.
Qed.

Lemma prefix_app_r (k h b : string) :
  String.prefix k h = true -> String.prefix k (h +:+ b) = true.
Proof.
  revert h. induction k as [|c k IH]; intros h;
    [intros _; destruct (h +:+ b); reflexivity|].
  destruct h as [|d h]; [discriminate|]. rewrite app_cons. cbn [String.prefix].
  destruct (Ascii.ascii_dec c d); [apply IH | discriminate].
Qed.

Lemma contains_app_r (k h b : string) :
  Text.contains k h = true -> Text.contains k (h +:+ b) = true.
Proof.
  induction h as [|c h IH].
  - cbn [Text.contains]. rewrite orb_false_r. intros H.
    destruct k; [|discriminate H]. destruct b; reflexivity.
  - rewrite app_cons. cbn [Text.contains]. intros [H|H]%orb_prop.
    + rewrite <- app_cons, (prefix_app_r _ _ b H). reflexivity.
    + rewrite (IH H). apply orb_true_r.
Qed.

Lemma contains_app_l (k a h : string) :
  Text.contains k h = true -> Text.contains k (a +:+ h) = true.
Proof.
  intros H. induction a as [|c a IH]; [exact H|].
  rewrite app_cons. cbn [Text.contains]. rewrite IH. apply orb_true_r.
Qed.

Lemma should_escalate_inv (q : string) :
  should_escalate (Some q) = true ->
  exists k, k ∈ ESCALATION_KEYWORDS /\ Text.contains k (Text.lower q) = true.
Proof.
  unfold should_escalate. destruct (decide (q = "")); [discriminate|].
  intros (k & Hk & Hc)%existsb_exists. apply list_elem_of_In in Hk. eauto.
Qed.

(** X23.  Padding does not hide a keyword: a query that the rule escalates
    is still escalated with any text put before and after it. *)
Theorem padding_keeps_escalation (q before after : string) :
  should_escalate (Some q) = true ->
  should_escalate (Some (before +:+ q +:+ after)) = true.
Proof.
  intros (k & Hk & Hc)%should_escalate_inv.
  apply (should_escalate_keyword _ k Hk).
  unfold contains_ignoring_case.
  pose proof keywords_lower_case as Hl. rewrite Forall_forall in Hl.
  rewrite (proj1 (Hl k Hk)). unfold Text.lower. rewrite !smap_app.
  apply contains_app_l, contains_app_r, Hc.
Qed.

Lemma padding_keeps_escalation_witness :
  should_escalate (Some ("please, " +:+ "Kill it" +:+ " with fire")) = true.
Proof.
  apply (padding_keeps_escalation "Kill it" "please, " " with fire").
  vm_compute. reflexivity.
Defined.

(** X24.  The threshold only gates the result: the entry that wins does not
    depend on it.  A match found at one threshold is found, with the same
    answer and score, at every lower threshold, and two matches of the same
    query at any two thresholds are the same. *)
Theorem threshold_only_gates (round3 : Q -> Q) (FAQ_LIST : list faq)
    (query : option string) (t t' : Q) (a : string) (sc : Q) :
  find_relevant_faq round3 FAQ_LIST query t = Return (Some a, sc) ->
  ((t' <= t)%Q -> find_relevant_faq round3 FAQ_LIST query t' = Return (Some a, sc))
  /\ (forall a' sc', find_relevant_faq round3 FAQ_LIST query t' = Return (Some a', sc') ->
                     a' = a /\ sc' = sc).
Proof.
  unfold find_relevant_faq.
  destruct (decide (token_set query = ∅)); [discriminate|].
  destruct (scan (token_set query) (Best 0 None) FAQ_LIST) as [e|b];
    cbn [mbind result_bind]; [discriminate|].
  destruct (best_faq b) as [x|]; [|discriminate].
  destruct (Qle_bool t (best_score b)) eqn:Ht; [|discriminate].
  intros H. injection H as <- <-. split.
  - intros Hle. apply Qle_bool_iff in Ht.
    assert (Ht' : Qle_bool t' (best_score b) = true)
      by (apply Qle_bool_iff; eapply Qle_trans; eassumption).
    rewrite Ht'. reflexivity.
  - intros a' sc'. destruct (Qle_bool t' (best_score b)); [|discriminate].
    intros H. injection H as <- <-. auto.
Qed.

Lemma threshold_only_gates_witness :
  find_relevant_faq round_half_even sample_faqs (Some "how do I reset my password") (1 # 10)
  = Return (Some "Go to settings", round_half_even (2 # 6)).
Proof.
  apply (proj1 (threshold_only_gates round_half_even sample_faqs
                  (Some "how do I reset my password") default_threshold (1 # 10)
                  "Go to settings" (round_half_even (2 # 6)) ltac:(vm_compute; reflexivity))).
  vm_compute. discriminate.
Defined.

(** * Turns over a store whose writes can raise *)

Lemma faulty_save_message_ok (fault : Faulty.write_fault) (k : nat) (db : database)
    (s r c : string) :
  fault k s r c = None -> Faulty.save_message fault k db s r c = inr (save_message db s r c).
Proof. intros H. unfold Faulty.save_message. rewrite H. reflexivity. Qed.

Lemma faulty_save_message_raises (fault : Faulty.write_fault) (k : nat) (db : database)
    (s r c e : string) :
  fault k s r c = Some e -> Faulty.save_message fault k db s r c = inl e.
Proof. intros H. unfold Faulty.save_message. rewrite H. reflexivity. Qed.

(** On a store whose writes complete the loop is [try_models]. *)
Lemma faulty_try_models_faultless (fault : Faulty.write_fault)
    (create : nat -> string -> list message -> call_result)
    (db : database) (sid q : string) (msgs : list message) (models : list string)
    (n k : nat) (last_error : option string) (warnings : list log_record) :
  (forall k s r c, fault k s r c = None) ->
  Faulty.try_models fault create db sid q msgs models n k last_error warnings
  = try_models create db sid q msgs models n last_error warnings.
Proof.
  intros Hok. revert n k last_error warnings.
  induction models as [|m models IH]; intros n k last_error warnings; [reflexivity|].
  cbn [Faulty.try_models try_models].
  destruct (create n m msgs) as [e|resp]; [apply IH|].
  destruct (classify_reply (extract_reply resp)) as [final action].
  rewrite !faulty_save_message_ok by apply Hok. reflexivity.
Qed.

(** On a store whose writes complete the handler is [chat]. *)
Lemma faulty_chat_faultless (fault : Faulty.write_fault) (round3 : Q -> Q)
    (FAQ_LIST : list faq) (MODEL_FALLBACKS : list string)
    (create : nat -> string -> list message -> call_result)
    (db : database) (req : request) :
  (forall k s r c, fault k s r c = None) ->
  Faulty.chat fault round3 FAQ_LIST MODEL_FALLBACKS create db req
  = chat round3 FAQ_LIST MODEL_FALLBACKS create db req.
Proof.
  intros Hok. unfold Faulty.chat, chat, Faulty.generate, generate, Faulty.record_and_reply.
  destruct (req_query req) as [q|]; [|reflexivity].
  destruct (decide (q = "")); [reflexivity|].
  rewrite !faulty_save_message_ok by apply Hok.
  destruct (should_escalate (Some q)); [reflexivity|].
  destruct (find_relevant_faq round3 FAQ_LIST (Some q) default_threshold) as [e|[[a|] sc]];
    [reflexivity | | apply faulty_try_models_faultless, Hok].
  rewrite !faulty_save_message_ok by apply Hok.
  destruct (decide (a = "")); [apply faulty_try_models_faultless, Hok | reflexivity].
Qed.

Lemma faulty_chat_by_branch (fault : Faulty.write_fault) (round3 : Q -> Q)
    (FAQ_LIST : list faq) (MODEL_FALLBACKS : list string)
    (create : nat -> string -> list message -> call_result)
    (db : database) (req : request) :
  Faulty.chat fault round3 FAQ_LIST MODEL_FALLBACKS create db req =
  match branch_of round3 FAQ_LIST req with
  | Rejected => Handled no_query db []
  | Escalated sid q =>
      Faulty.record_and_reply fault db sid q handoff_message
        (Response 200 (outcome_body handoff_message "rule-based" "escalated" sid))
  | Faulted e => Faulty.unhandled (VExn e) db
  | FaqMatched sid q a sc =>
      Faulty.record_and_reply fault db sid q a
        (Response 200 (<["match_score" := VNum sc]> (outcome_body a "faq" "responded" sid)))
  | Generative sid q => Faulty.generate fault MODEL_FALLBACKS create db sid q
  end.
Proof.
  unfold Faulty.chat, branch_of.
  destruct (req_query req) as [q|]; [|reflexivity].
  destruct (decide (q = "")); [reflexivity|].
  destruct (should_escalate (Some q)); [reflexivity|].
  destruct (find_relevant_faq round3 FAQ_LIST (Some q) default_threshold) as [e|[[a|] sc]];
    [reflexivity | | reflexivity].
  destruct (decide (a = "")); reflexivity.
Qed.

(** What the two writes of steps 1 and 2 leave, by the write that raises. *)
Lemma record_and_reply_cases (fault : Faulty.write_fault) (db : database)
    (sid q a : string) (ok : response) :
  let h := Faulty.record_and_reply fault db sid q a ok in
  (exists e, fault 0%nat sid "user" q = Some e
             /\ h = Faulty.unhandled (VStr e) db)
  \/ (exists e, fault 0%nat sid "user" q = None /\ fault 1%nat sid "assistant" a = Some e
                /\ h = Faulty.unhandled (VStr e) (save_message db sid "user" q))
  \/ (fault 0%nat sid "user" q = None /\ fault 1%nat sid "assistant" a = None
      /\ h = Handled ok (record_turn db sid q a) []).
Proof.
  unfold Faulty.record_and_reply, Faulty.save_message, record_turn.
  destruct (fault 0%nat sid "user" q) as [e|]; [left; eauto|]. right.
  destruct (fault 1%nat sid "assistant" a) as [e|]; [left; eauto | right; auto].
Qed.

(** With at most one model, the loop answers 200 only after both writes. *)
Lemma faulty_try_models_single (fault : Faulty.write_fault)
    (create : nat -> string -> list message -> call_result)
    (db : database) (sid q : string) (msgs : list message) (models : list string)
    (n k : nat) (last_error : option string) (warnings : list log_record) :
  (length models <= 1)%nat ->
  let h := Faulty.try_models fault create db sid q msgs models n k last_error warnings in
  status (reply h) = 200%nat ->
  exists a, body (reply h) !! "response" = Some (VStr a) /\ db_after h = record_turn db sid q a.
Proof.
  intros Hlen h. subst h. destruct models as [|m [|m' models]]; [| |cbn [length] in Hlen; lia].
  - cbn [Faulty.try_models reply status backend_failed]. discriminate.
  - cbn [Faulty.try_models].
    destruct (create n m msgs) as [e|resp]; [cbn; discriminate|].
    destruct (classify_reply (extract_reply resp)) as [final action].
    unfold Faulty.save_message.
    destruct (fault k sid "user" q); [cbn; discriminate|].
    destruct (fault (S k) sid "assistant" final); [cbn; discriminate|].
    intros _. exists final. split; reflexivity.
Qed.

(** C1, as the code has it.  A missing or empty query writes nothing,
    whatever the store does.  When no write raises, a call either answers
    with status 200 and appends exactly two rows for the request's session,
    the query as "user" and then the returned response as "assistant", or
    answers with another status ("No query provided", "AI backend failed",
    "Internal server error") and appends nothing.  Each write is committed on
    its own: in the rule-based and FAQ branches a write that raises ends the
    call with "Internal server error" and leaves what was written before
    it, nothing if it was the first write and the user row if it was the
    second. *)
Theorem turn_recorded_when_writes_complete (fault : Faulty.write_fault) (round3 : Q -> Q)
    (FAQ_LIST : list faq) (MODEL_FALLBACKS : list string)
    (create : nat -> string -> list message -> call_result)
    (db : database) (req : request) :
  let h := Faulty.chat fault round3 FAQ_LIST MODEL_FALLBACKS create db req in
  let sid := default "default" (req_session_id req) in
  (req_query req = None \/ req_query req = Some "" ->
   reply h = no_query /\ db_after h = db)
  /\ ((forall k s r c, fault k s r c = None) ->
      ((exists q a,
           req_query req = Some q
           /\ status (reply h) = 200%nat
           /\ body (reply h) !! "response" = Some (VStr a)
           /\ conversations (db_after h)
              = conversations db ++ [Row (sqlite_sequence db + 1) sid "user" q;
                                     Row (sqlite_sequence db + 1 + 1) sid "assistant" a])
       \/ (status (reply h) <> 200%nat /\ db_after h = db))
      /\ (body (reply h) !! "error" = Some (VStr "AI backend failed") ->
          status (reply h) = 500%nat /\ db_after h = db))
  /\ (forall q a,
        branch_of round3 FAQ_LIST req = Escalated sid q /\ a = handoff_message
        \/ (exists sc, branch_of round3 FAQ_LIST req = FaqMatched sid q a sc) ->
        (forall e, fault 0%nat sid "user" q = Some e ->
                   h = Faulty.unhandled (VStr e) db)
        /\ (forall e, fault 0%nat sid "user" q = None ->
                      fault 1%nat sid "assistant" a = Some e ->
                      h = Faulty.unhandled (VStr e) (save_message db sid "user" q))).
Proof.
  intros h sid. subst h. split; [|split].
  - unfold Faulty.chat. intros [-> | ->]; split; reflexivity.
  - intros Hok. rewrite (faulty_chat_faultless _ _ _ _ _ _ _ Hok).
    pose proof (chat_whole_turn_or_nothing round3 FAQ_LIST MODEL_FALLBACKS create db req)
      as (H1 & _ & H3).
    split; [exact H1 | exact H3].
  - intros q a Hb. rewrite faulty_chat_by_branch.
    assert (Hh : exists ok,
               match branch_of round3 FAQ_LIST req with
               | Rejected => Handled no_query db []
               | Escalated sid0 q0 =>
                   Faulty.record_and_reply fault db sid0 q0 handoff_message
                     (Response 200 (outcome_body handoff_message "rule-based" "escalated" sid0))
               | Faulted e => Faulty.unhandled (VExn e) db
               | FaqMatched sid0 q0 a0 sc0 =>
                   Faulty.record_and_reply fault db sid0 q0 a0
                     (Response 200 (<["match_score" := VNum sc0]>
                                     (outcome_body a0 "faq" "responded" sid0)))
               | Generative sid0 q0 => Faulty.generate fault MODEL_FALLBACKS create db sid0 q0
               end = Faulty.record_and_reply fault db sid q a ok).
    { destruct Hb as [[-> ->] | [sc ->]]; eexists; reflexivity. }
    destruct Hh as [ok ->].
    destruct (record_and_reply_cases fault db sid q a ok)
      as [(e & He & Hr) | [(e & He0 & He1 & Hr) | (He0 & He1 & Hr)]]; cbn zeta in Hr;
      rewrite Hr; split; intros e' H0; try intros H1; congruence.
Qed.

Lemma turn_recorded_when_writes_complete_witness :
  (exists q a,
      conversations (db_after (Faulty.chat no_fault round_half_even sample_faqs two_models
                                 dead_backend init_db password_request))
      = [Row 1 "s1" "user" q; Row 2 "s1" "assistant" a])
  /\ Faulty.chat (second_write_fails "database is locked") round_half_even sample_faqs
       two_models dead_backend init_db password_request
     = Faulty.unhandled (VStr "database is locked")
         (save_message init_db "s1" "user" "How do I reset my password?").
Proof.
  pose proof (turn_recorded_when_writes_complete no_fault round_half_even sample_faqs
                two_models dead_backend init_db password_request) as (_ & Hok & _).
  pose proof (turn_recorded_when_writes_complete (second_write_fails "database is locked")
                round_half_even sample_faqs two_models dead_backend init_db password_request)
    as (_ & _ & Hraise).
  cbn zeta in Hok, Hraise. split.
  - destruct (proj1 (Hok ltac:(reflexivity))) as [(q & a & _ & _ & _ & Hrows) | (Hs & _)].
    + exists q, a. exact Hrows.
    + exfalso. apply Hs. vm_compute. reflexivity.
  - refine (proj2 (Hraise "How do I reset my password?" "Go to settings" _)
                  "database is locked" _ _).
    + right. eexists. vm_compute. reflexivity.
    + reflexivity.
    + reflexivity.
Defined.

(** C1, as stated, fails: in the FAQ branch a second write that raises
    leaves one row, the user's, and the reply has status 500. *)
Lemma one_row_after_failed_second_write :
  ~ (forall fault round3 FAQ_LIST MODEL_FALLBACKS create db req,
       let h := Faulty.chat fault round3 FAQ_LIST MODEL_FALLBACKS create db req in
       length (conversations (db_after h)) = length (conversations db)
       \/ length (conversations (db_after h)) = (length (conversations db) + 2)%nat).
Proof.
  intros H.
  specialize (H (second_write_fails "database is locked") round_half_even sample_faqs
                two_models dead_backend init_db password_request).
  vm_compute in H. destruct H as [H|H]; discriminate H.
Qed.

(** C4, at the input where the code departs from it.  With the configured
    model answering "Hello!" and the write of the assistant row raising, the
    exception is caught by the handler of line 228: it is logged as a
    failure of the model, and the reply is "AI backend failed" with the text
    of the write's exception as detail, although the call to the backend
    returned, and with the user row committed.  With a second model
    configured the loop goes on after the failed write: the reply has
    status 200 and the table holds three new rows. *)
Theorem write_failure_reported_as_backend_failure :
  let h := Faulty.chat (assistant_write_fails "database is locked") round_half_even
             sample_faqs configured_models (steady_backend "Hello!") init_db
             greeting_request in
  let h2 := Faulty.chat (second_write_fails "database is locked") round_half_even
              sample_faqs two_models (steady_backend "Hello!") init_db greeting_request in
  steady_backend "Hello!" 0 "llama-3.1-8b-instant" (prompt init_db "default" "hello there")
  = CallReturns (Completion (Some "Hello!") None "")
  /\ reply h = backend_failed (Some "database is locked")
  /\ logged h = [model_failed "llama-3.1-8b-instant" "database is locked"]
  /\ conversations (db_after h) = [Row 1 "default" "user" "hello there"]
  /\ status (reply h2) = 200%nat
  /\ body (reply h2) !! "source" = Some (VStr "llm:secondary")
  /\ logged h2 = [model_failed "primary" "database is locked"]
  /\ conversations (db_after h2)
     = [Row 1 "default" "user" "hello there";
        Row 2 "default" "user" "hello there";
        Row 3 "default" "assistant" "Hello!"].
Proof. vm_compute. repeat split. Qed.

(** X2.  On a table in id order, a call answered with status 200 shows up
    in /history of the request's session as exactly two more messages at
    the end, the query as "user" and then the returned response as
    "assistant", provided at most one model is configured (as app.py does)
    or no write of the call raises. *)
Theorem successful_turn_in_history (fault : Faulty.write_fault) (round3 : Q -> Q)
    (FAQ_LIST : list faq) (MODEL_FALLBACKS : list string)
    (create : nat -> string -> list message -> call_result)
    (db : database) (req : request) :
  let h := Faulty.chat fault round3 FAQ_LIST MODEL_FALLBACKS create db req in
  consistent db ->
  (length MODEL_FALLBACKS <= 1)%nat \/ (forall k s r c, fault k s r c = None) ->
  status (reply h) = 200%nat ->
  exists q a,
    req_query req = Some q
    /\ body (reply h) !! "response" = Some (VStr a)
    /\ history (db_after h) (req_session_id req)
       = history db (req_session_id req) ++ [Message "user" q; Message "assistant" a].
Proof.
  intros h Hdb Hcond Hs. subst h.
  assert (Hturn : exists q a,
             req_query req = Some q
             /\ body (reply (Faulty.chat fault round3 FAQ_LIST MODEL_FALLBACKS create db req))
                  !! "response" = Some (VStr a)
             /\ db_after (Faulty.chat fault round3 FAQ_LIST MODEL_FALLBACKS create db req)
                = record_turn db (default "default" (req_session_id req)) q a).
  { destruct Hcond as [Hone | Hok].
    - pose proof (branch_of_query round3 FAQ_LIST req) as Hq.
      rewrite faulty_chat_by_branch in Hs |- *.
      destruct (branch_of round3 FAQ_LIST req) as [|s q|e|s q a sc|s q];
        try (cbn in Hs; discriminate Hs).
      + destruct Hq as (Hq & _ & ->).
        destruct (record_and_reply_cases fault db
                    (default "default" (req_session_id req)) q handoff_message
                    (Response 200 (outcome_body handoff_message "rule-based" "escalated"
                                     (default "default" (req_session_id req)))))
          as [(e & _ & Hr) | [(e & _ & _ & Hr) | (_ & _ & Hr)]]; cbn zeta in Hr;
          rewrite Hr in Hs |- *; try (cbn in Hs; discriminate Hs).
        exists q, handoff_message. auto.
      + destruct Hq as (Hq & _ & ->).
        destruct (record_and_reply_cases fault db
                    (default "default" (req_session_id req)) q a
                    (Response 200 (<["match_score" := VNum sc]>
                                    (outcome_body a "faq" "responded"
                                       (default "default" (req_session_id req))))))
          as [(e & _ & Hr) | [(e & _ & _ & Hr) | (_ & _ & Hr)]]; cbn zeta in Hr;
          rewrite Hr in Hs |- *; try (cbn in Hs; discriminate Hs).
        exists q, a. auto.
      + destruct Hq as (Hq & _ & ->). unfold Faulty.generate in Hs |- *.
        destruct (faulty_try_models_single fault create db
                    (default "default" (req_session_id req)) q
                    (prompt db (default "default" (req_session_id req)) q)
                    MODEL_FALLBACKS 0 0 None [] Hone Hs) as (a & Ha & Hd).
        exists q, a. auto.
    - rewrite (faulty_chat_faultless _ _ _ _ _ _ _ Hok) in Hs |- *.
      destruct (chat_db_after round3 FAQ_LIST MODEL_FALLBACKS create db req)
        as [(_ & q & a & Hq & Hr & Hd) | (Hn & _)]; [|contradiction].
      exists q, a. auto. }
  destruct Hturn as (q & a & Hq & Hr & Hd).
  exists q, a. split; [exact Hq|]. split; [exact Hr|].
  rewrite Hd. unfold history, record_turn.
  rewrite get_history_save_message by (apply consistent_save_message, Hdb).
  rewrite get_history_save_message by exact Hdb.
  destruct (decide (default "default" (req_session_id req)
                    = default "default" (req_session_id req))); [|contradiction].
  rewrite as_message_user, as_message_assistant, <- app_assoc. reflexivity.
Qed.

Lemma successful_turn_in_history_witness :
  exists q a,
    history (db_after (Faulty.chat no_fault round_half_even
                         sample_faqs configured_models (steady_backend "Hello!")
                         (save_message init_db "default" "user" "earlier")
                         greeting_request)) None
    = [Message "user" "earlier"] ++ [Message "user" q; Message "assistant" a].
Proof.
  destruct (successful_turn_in_history no_fault round_half_even
              sample_faqs configured_models (steady_backend "Hello!")
              (save_message init_db "default" "user" "earlier") greeting_request
              (consistent_save_message _ _ _ _ consistent_init_db))
    as (q & a & _ & _ & H).
  - left. vm_compute. lia.
  - vm_compute. reflexivity.
  - exists q, a. exact H.
Defined.

(** * The loader, source by source *)

Lemma smap_length (f : ascii -> ascii) (s : string) :
  String.length (Text.smap f s) = String.length s.
Proof. induction s as [|c s IH]; [reflexivity|]. cbn [Text.smap String.length]. rewrite IH. reflexivity. Qed.

Lemma smap_get (f : ascii -> ascii) (s : string) (i : nat) (c : ascii) :
  String.get i s = Some c -> String.get i (Text.smap f s) = Some (f c).
Proof.
  revert i. induction s as [|d s IH]; intros i; [discriminate|].
  cbn [Text.smap]. destruct i as [|i]; cbn [String.get].
  - intros H. injection H as ->. reflexivity.
  - apply IH.
Qed.

(** C6, as the code has it.  When opening or parsing the file raises,
    [load_faqs] returns the empty list and logs one record, at level ERROR,
    instead of raising.  A parsed document that is neither a list nor a
    mapping gives the empty list and no log record.  A list of objects gives
    one entry per object, in order, with question and answer defaulting to
    the empty string and absent or falsy tags to the empty list.  A mapping
    gives one entry per member, in order, whose answer is the value, whose
    tags are empty and whose question is the key with every underscore
    replaced by a space and every other character kept.  Entries come from
    no other document. *)
Theorem load_faqs_source_by_source :
  (forall e, load_faqs (ReadRaises e)
             = (Return [], [Log ERROR ("Failed to load faqs.json: " +:+ e)]))
  /\ (forall data,
        (forall items, data <> JArr items) -> (forall members, data <> JObj members) ->
        load_faqs (ReadReturns data) = (Return [], []))
  /\ (forall objects,
        load_faqs (ReadReturns (JArr (map JObj objects)))
        = (Return (map entry_of_object objects), []))
  /\ (forall members,
        exists faqs,
          load_faqs (ReadReturns (JObj members)) = (Return faqs, [])
          /\ length faqs = length members
          /\ forall i k v,
               members !! i = Some (k, v) ->
               exists s,
                 faqs !! i = Some (Faq (JStr s) v (JArr []))
                 /\ String.length s = String.length k
                 /\ forall j c, String.get j k = Some c ->
                                String.get j s
                                = Some (if Ascii.eqb c "_" then " "%char else c))
  /\ (forall data faqs logs,
        load_faqs (ReadReturns data) = (Return faqs, logs) ->
        faqs <> [] ->
        (exists items, data = JArr items) \/ (exists members, data = JObj members)).
Proof.
  split; [reflexivity|]. split; [|split; [|split]].
  - intros data Hl Hm. destruct data; try reflexivity.
    + exfalso. eapply Hl. reflexivity.
    + exfalso. eapply Hm. reflexivity.
  - intros objects. cbn [load_faqs]. rewrite for_each_objects. reflexivity.
  - intros members. exists (map faq_of_pair members).
    split; [reflexivity|]. split; [apply length_map|].
    intros i k v Hi. exists (Text.replace_char "_" " " k).
    split; [rewrite list_lookup_fmap, Hi; reflexivity|].
    unfold Text.replace_char. split; [apply smap_length|].
    intros j c Hj. rewrite (smap_get _ _ _ _ Hj). f_equal.
    destruct (decide (c = "_"%char)) as [->|Hne]; [reflexivity|].
    destruct (Ascii.eqb_spec c "_"); [contradiction | reflexivity].
  - intros data faqs logs H Hne. destruct data; cbn [load_faqs] in H; eauto;
      injection H as <- _; contradiction.
Qed.

Lemma load_faqs_source_by_source_witness :
  load_faqs (ReadReturns (JNum 42)) = (Return [], [])
  /\ exists s, fst (load_faqs (ReadReturns (JObj [("reset_password", JStr "Go to settings")])))
               = Return [Faq (JStr s) (JStr "Go to settings") (JArr [])]
               /\ String.get 5 s = Some " "%char.
Proof.
  split.
  - apply (proj1 (proj2 load_faqs_source_by_source)); discriminate.
  - destruct (proj1 (proj2 (proj2 (proj2 load_faqs_source_by_source)))
                [("reset_password", JStr "Go to settings")])
      as (faqs & Hload & Hlen & Hpos).
    destruct (Hpos 0%nat "reset_password" (JStr "Go to settings") eq_refl)
      as (s & Hs & _ & Hget).
    exists s. split; [|apply (Hget 5%nat "_"%char); reflexivity].
    rewrite Hload. cbn [fst]. f_equal.
    destruct faqs as [|f [|g faqs]]; try discriminate Hlen.
    cbn in Hs. injection Hs as ->. reflexivity.
Defined.

(** C6, as stated, fails: a source that parses to a number is neither of
    the accepted shapes, and the loader returns the empty list for it without
    any log record.  (A list holding a non-object is another such source; on
    it the loader raises, see [load_faqs_item_not_object].) *)
Lemma parsed_scalar_gives_no_warning :
  ~ (forall f, unusable f ->
               fst (load_faqs f) = Return [] /\ snd (load_faqs f) <> []).
Proof.
  intros H.
  destruct (H (ReadReturns (JNum 42))) as [_ Hlog].
  - intros [[objects Ho] | [members Hm]]; [destruct objects|]; discriminate.
  - apply Hlog. reflexivity.
Qed.
